(** * mark: a Markov-chain text generator with a persisted frequency table

    A shallow embedding of [mark.go] (type [Chain] with [Build],
    [WriteModel], [ReadChainFromFile] and [Generate]) together with the
    pieces of the Go standard library the program calls, and the properties
    of the program stated in its specification.

    Conventions of the embedding.
    - A Go [string] is a sequence of bytes: Rocq's [string] of 8-bit [ascii].
    - A Go [int] is a 64-bit two's complement integer: a [Z] kept in range by
      [wrap] where the program adds or subtracts counts and word numbers;
      sums of slice indices, which the length of the slice bounds, are
      left as they are.
    - A Go [map] is a [gmap]; a nil map and an empty map read alike, and the
      program never stores nil as a value.
    - A run-time panic is an explicit result, [Panicked], threaded through
      the small monad [outcome].
    - The process-wide random source is a function from draw number to raw
      value; the order in which [range] visits a map is a parameter. *)

From Stdlib Require Import ZArith Lia List.
From Stdlib Require Import Ascii String.
From stdpp Require Import base option list gmap strings fin_maps.

Local Open Scope Z_scope.

(** ** Run-time outcomes *)

(** The run-time panics the program can raise. *)
Inductive panic : Set :=
| SliceBounds        (* a slice expression whose bounds are out of range *)
| IndexOutOfRange    (* an index expression out of range *)
| MakeNegativeLen    (* make([]T, n) with n < 0 *)
| IntnInvalidArg     (* rand.Intn(n) with n <= 0 *)
| ExplicitPanic (msg : string).  (* a panic(...) statement of the program *)

Inductive outcome (A : Type) : Type :=
| Returned (a : A)
| Panicked (p : panic).
Arguments Returned {A} a.
Arguments Panicked {A} p.

Definition bind {A B : Type} (m : outcome A) (f : A -> outcome B) : outcome B :=
  match m with
  | Returned a => f a
  | Panicked p => Panicked p
  end.

Notation "x <- m ;; f" := (bind m (fun x => f))
  (at level 100, m at next level, right associativity).

(** ** Go's [int] *)

Module GoInt.

Definition min_int : Z := - 2 ^ 63.
Definition max_int : Z := 2 ^ 63 - 1.

(** Two's complement wrap-around of a mathematical result. *)
Definition wrap (z : Z) : Z := (z + 2 ^ 63) mod 2 ^ 64 - 2 ^ 63.

Definition in_range (z : Z) : Prop := min_int <= z <= max_int.

Definition add (a b : Z) : Z := wrap (a + b).
Definition sub (a b : Z) : Z := wrap (a - b).

End GoInt.

(** ** The parts of Go's standard library the program calls *)

Module GoLib.

Definition byte_val (c : ascii) : N := N_of_ascii c.

(** *** White space

    [fmt.Fscan] and [strings.Fields] split at the same runes: the ASCII
    blanks and the Unicode White_Space runes U+0085, U+00A0, U+1680,
    U+2000..U+200A, U+2028, U+2029, U+202F, U+205F and U+3000.  In UTF-8
    the latter start with a byte that is never a continuation byte, so a
    left-to-right decoder meets each of them wherever its bytes occur;
    [space_width] gives the number of bytes of the white-space rune that
    starts a string, or 0 when none does. *)

Definition is_ascii_space (b : N) : bool :=
  ((9 <=? b) && (b <=? 13) || (b =? 32))%N.

Definition is_space2 (a b : N) : bool :=
  ((a =? 0xC2) && ((b =? 0x85) || (b =? 0xA0)))%N.

Definition is_space3 (a b c : N) : bool :=
  ((a =? 0xE1) && (b =? 0x9A) && (c =? 0x80)
   || (a =? 0xE2) && (b =? 0x80)
      && ((0x80 <=? c) && (c <=? 0x8A) || (c =? 0xA8) || (c =? 0xA9) || (c =? 0xAF))
   || (a =? 0xE2) && (b =? 0x81) && (c =? 0x9F)
   || (a =? 0xE3) && (b =? 0x80) && (c =? 0x80))%N.

Definition space_width (s : string) : nat :=
  match s with
  | String a (String b (String c _)) =>
      if is_ascii_space (byte_val a) then 1%nat
      else if is_space2 (byte_val a) (byte_val b) then 2%nat
      else if is_space3 (byte_val a) (byte_val b) (byte_val c) then 3%nat
      else 0%nat
  | String a (String b EmptyString) =>
      if is_ascii_space (byte_val a) then 1%nat
      else if is_space2 (byte_val a) (byte_val b) then 2%nat
      else 0%nat
  | String a EmptyString =>
      if is_ascii_space (byte_val a) then 1%nat else 0%nat
  | EmptyString => 0%nat
  end.

(** The pieces of [s] between white-space runes, empty pieces included; the
    head of the result is the piece that starts where [s] starts.  [skip]
    counts the bytes still to drop of the white-space rune being crossed. *)
Fixpoint pieces (skip : nat) (s : string) : list string :=
  match s with
  | EmptyString => [EmptyString]
  | String a r =>
      match skip with
      | S n => pieces n r
      | O =>
          match space_width (String a r) with
          | S n => EmptyString :: pieces n r
          | O =>
              match pieces 0 r with
              | w :: ws => String a w :: ws
              | [] => [String a EmptyString]
              end
          end
      end
  end.

(** [strings.Fields(s)]: the maximal white-space-free substrings of [s]. *)
Definition Fields (s : string) : list string :=
  filter (fun w => w <> EmptyString) (pieces 0 s).

(** The words [fmt.Fscan(br, &s)] delivers, call after call, until it
    reports an error at the end of the input: it skips white space
    (newlines included) and reads up to the next white-space rune, so a
    word is never empty.  Input is taken to be valid UTF-8 (Fscan replaces
    a byte that is not by U+FFFD). *)
Definition Fscan_words (r : string) : list string :=
  filter (fun w => w <> EmptyString) (pieces 0 r).

(** [strings.Join(elems, sep)]. *)
Fixpoint Join (elems : list string) (sep : string) : string :=
  match elems with
  | [] => EmptyString
  | [e] => e
  | e :: rest => e +:+ sep +:+ Join rest sep
  end.

(** [strings.Split(s, sep)] for a one-byte separator. *)
Fixpoint Split (s : string) (sep : ascii) : list string :=
  match s with
  | EmptyString => [EmptyString]
  | String a r =>
      if Ascii.eqb a sep then EmptyString :: Split r sep
      else
        match Split r sep with
        | w :: ws => String a w :: ws
        | [] => [String a EmptyString]
        end
  end.

(** *** strconv *)

Definition dquote : ascii := "034"%char.

(** [strconv.Quote(s)]; the program applies it to the empty string only,
    where no escaping takes place. *)
Definition Quote (s : string) : string :=
  String dquote (s +:+ String dquote EmptyString).

Definition digit_char (d : N) : ascii := ascii_of_N (48 + d).

(** Decimal digits of [n], most significant first, in front of [acc]. *)
Fixpoint utoa (fuel : nat) (n : N) (acc : string) : string :=
  let acc' := String (digit_char (n mod 10)) acc in
  match fuel with
  | O => acc'
  | S f => if (n / 10 =? 0)%N then acc' else utoa f (n / 10) acc'
  end.

(** [strconv.Itoa(i)], also what [fmt.Fprintln] prints for an int. *)
Definition Itoa (i : Z) : string :=
  let n := Z.to_N (Z.abs i) in
  let digits := utoa (N.to_nat (N.log2 n)) n EmptyString in
  if i <? 0 then String "-"%char digits else digits.

Inductive NumError : Set := ErrSyntax | ErrRange.

Definition uint64_cutoff : N := 1844674407370955162. (* maxUint64/10 + 1 *)
Definition max_uint64 : N := 18446744073709551615.

(** The digit loop of [strconv.ParseUint(s, 10, 64)]. *)
Fixpoint parse_digits (n : N) (s : string) : N + NumError :=
  match s with
  | EmptyString => inl n
  | String c r =>
      let b := byte_val c in
      if ((48 <=? b) && (b <=? 57))%N then
        if (uint64_cutoff <=? n)%N then inr ErrRange
        else
          let n1 := (n * 10 + (b - 48))%N in
          if (max_uint64 <? n1)%N then inr ErrRange else parse_digits n1 r
      else inr ErrSyntax
  end.

(** [strconv.Atoi(s)]: the value and the error (None for nil).  A syntax
    error gives 0; a range error gives the nearest int. *)
Definition Atoi (s : string) : Z * option NumError :=
  match s with
  | EmptyString => (0, Some ErrSyntax)
  | String c r =>
      let neg := Ascii.eqb c "-"%char in
      let digits := if Ascii.eqb c "+"%char || neg then r else s in
      match digits with
      | EmptyString => (0, Some ErrSyntax)
      | _ =>
          match parse_digits 0 digits with
          | inr ErrSyntax => (0, Some ErrSyntax)
          | inr ErrRange =>
              (if neg then GoInt.min_int else GoInt.max_int, Some ErrRange)
          | inl un =>
              if negb neg && (2 ^ 63 <=? Z.of_N un) then
                (GoInt.max_int, Some ErrRange)
              else if neg && (2 ^ 63 <? Z.of_N un) then
                (GoInt.min_int, Some ErrRange)
              else (if neg then - Z.of_N un else Z.of_N un, None)
          end
      end
  end.

(** *** bufio.Scanner with the default split function [ScanLines] *)

Definition newline : ascii := "010"%char.
Definition carriage_return : ascii := "013"%char.

(** The lines of [s]: the text before each newline, and the text after the
    last one when it is not empty. *)
Fixpoint split_lines (s : string) : list string :=
  match s with
  | EmptyString => []
  | String a r =>
      if Ascii.eqb a newline then EmptyString :: split_lines r
      else
        match split_lines r with
        | l :: ls => String a l :: ls
        | [] => [String a EmptyString]
        end
  end.

(** [dropCR]: a line loses one trailing carriage return. *)
Fixpoint dropCR (l : string) : string :=
  match l with
  | EmptyString => EmptyString
  | String a EmptyString =>
      if Ascii.eqb a carriage_return then EmptyString else l
  | String a r => String a (dropCR r)
  end.

Definition MaxScanTokenSize : Z := 64 * 1024.

(** The tokens successive calls of [Scan] deliver.  The scanner's buffer
    holds at most [MaxScanTokenSize] bytes: at a line that does not fit,
    [Scan] returns false (ErrTooLong) and the program, which never looks at
    [scanner.Err()], takes it for the end of the file. *)
Fixpoint scanner_tokens (ls : list string) : list string :=
  match ls with
  | [] => []
  | l :: ls' =>
      if MaxScanTokenSize <=? Z.of_nat (String.length l) then []
      else dropCR l :: scanner_tokens ls'
  end.

Definition Scan_all (file : string) : list string :=
  scanner_tokens (split_lines file).

(** What a sequence of [fmt.Fprintln(f, l)] writes to [f]. *)
Definition Fprintln_all (ls : list string) : string :=
  fold_right (fun l acc => l +:+ String newline acc) EmptyString ls.

End GoLib.

(** ** The program *)

Module Mark.
Import GoLib.

(** [type Prefix []string] *)
Definition Prefix : Type := list string.

(** [func (p Prefix) String() string] *)
Definition Prefix_String (p : Prefix) : string := Join p " ".

(** [func (p Prefix) Shift(word string)]: [copy(p, p[1:])] and then
    [p[len(p)-1] = word]; on an empty prefix [p[1:]] panics. *)
Definition Shift (p : Prefix) (word : string) : outcome Prefix :=
  match p with
  | [] => Panicked SliceBounds
  | _ :: rest => Returned (rest ++ [word])
  end.

(** [make(Prefix, n)] *)
Definition make_Prefix (n : Z) : outcome Prefix :=
  if n <? 0 then Panicked MakeNegativeLen
  else Returned (replicate (Z.to_nat n) EmptyString).

(** [type Chain struct] *)
Record Chain : Type := mkChain {
  chain : gmap string (list string);
  prefixLen : Z;
  text : list (list string);
  pairmap : gmap string (gmap string Z);
  prefixStorage : list string
}.

(** [func NewChain(prefixLen int) *Chain] *)
Definition NewChain (prefixLen : Z) : Chain :=
  mkChain ∅ prefixLen [] ∅ [].

(** [func Find(slice []string, val string) bool] *)
Fixpoint Find (slice : list string) (val : string) : bool :=
  match slice with
  | [] => false
  | item :: rest => if String.eqb item val then true else Find rest val
  end.

(** [s[i]] on a slice. *)
Definition index (s : list string) (i : Z) : outcome string :=
  if (i <? 0) || (Z.of_nat (length s) <=? i) then Panicked IndexOutOfRange
  else
    match s !! Z.to_nat i with
    | Some x => Returned x
    | None => Panicked IndexOutOfRange
    end.

(** [s[0:hi]] and [s[lo:]] on a slice whose capacity is its length. *)
Definition slice_to (s : list string) (hi : Z) : outcome (list string) :=
  if (hi <? 0) || (Z.of_nat (length s) <? hi) then Panicked SliceBounds
  else Returned (take (Z.to_nat hi) s).

Definition slice_from (s : list string) (lo : Z) : outcome (list string) :=
  if (lo <? 0) || (Z.of_nat (length s) <? lo) then Panicked SliceBounds
  else Returned (drop (Z.to_nat lo) s).

(** [c.pairmap[key][word]]: 0 when either key is absent. *)
Definition count (pm : gmap string (gmap string Z)) (key word : string) : Z :=
  default 0 (default ∅ (pm !! key) !! word).

(** [if pm[key] == nil { pm[key] = make(map[string]int) }] *)
Definition ensure (pm : gmap string (gmap string Z)) (key : string)
  : gmap string (gmap string Z) :=
  match pm !! key with
  | None => <[key := ∅]> pm
  | Some _ => pm
  end.

(** [pm[key][word] += d] *)
Definition bump (pm : gmap string (gmap string Z)) (key word : string) (d : Z)
  : gmap string (gmap string Z) :=
  <[key := <[word := GoInt.add (count pm key word) d]> (default ∅ (pm !! key))]> pm.

(** *** Build *)

(** The body of the loop of [Build] once [Fscan] has delivered [s]
    (mark.go, lines 112-126). *)
Definition Build_word (c : Chain) (p : Prefix) (s : string)
  : outcome (Chain * Prefix) :=
  let key := Prefix_String p in
  let pm := bump (ensure (pairmap c) key) key s 1 in
  let choices := default [] (chain c !! key) in
  let ch := if Find choices s then chain c
            else <[key := choices ++ [s]]> (chain c) in
  p' <- Shift p s ;;
  Returned (mkChain ch (prefixLen c) (text c) pm (prefixStorage c), p').

Fixpoint Build_loop (c : Chain) (p : Prefix) (currtext words : list string)
  : outcome (Chain * list string) :=
  match words with
  | [] => Returned (c, currtext)
  | s :: rest =>
      x <- Build_word c p s ;;
      Build_loop (fst x) (snd x) (currtext ++ [s]) rest
  end.

(** [func (c *Chain) Build(r io.Reader)] (mark.go, lines 102-131); [r] is
    the content of the reader, and the loop runs over the words [Fscan]
    delivers until it reports an error. *)
Definition Build (c : Chain) (r : string) : outcome Chain :=
  p <- make_Prefix (prefixLen c) ;;
  x <- Build_loop c p [] (Fscan_words r) ;;
  let c' := fst x in
  Returned (mkChain (chain c') (prefixLen c') (text c' ++ [snd x])
                    (pairmap c') (prefixStorage c')).

(** The READ command of [main]: one [Build] per input file, in order. *)
Fixpoint Build_all (c : Chain) (files : list string) : outcome Chain :=
  match files with
  | [] => Returned c
  | r :: rest => c' <- Build c r ;; Build_all c' rest
  end.

(** *** WriteModel *)

Definition format_prefix (p : Prefix) : list string :=
  map (fun word => if String.eqb word EmptyString then Quote word else word) p.

Definition format_suffixes (c : Chain) (key : string) (choices : list string)
  : list string :=
  flat_map (fun word =>
              if String.eqb word EmptyString then [Quote word]
              else [word; Itoa (count (pairmap c) key word)]) choices.

(** The slice [line] of one row (mark.go, lines 153-175): prefix, then
    suffixes and frequencies read from [c.pairmap] as it is when the model
    is written. *)
Definition format_line (c : Chain) (p : Prefix) : list string :=
  let key := Prefix_String p in
  format_prefix p ++ format_suffixes c key (default [] (chain c !! key)).

(** The inner loop of [WriteModel] over what is left of [c.text[j]]
    (mark.go, lines 145-184); [storage] is [c.prefixStorage] and [out] the
    rows printed so far.  Leaving the match early is the [break]. *)
Fixpoint Write_corpus (c : Chain) (p : Prefix) (storage : list string)
    (out : list (list string)) (words : list string)
  : outcome (list string * list (list string)) :=
  match words with
  | [] => Returned (storage, out)
  | next :: rest =>
      let choices := default [] (chain c !! Prefix_String p) in
      if (length choices =? 0)%nat then Returned (storage, out)
      else if negb (Find storage (Prefix_String p)) then
        let storage' := storage ++ [Prefix_String p] in
        let line := format_line c p in
        p' <- Shift p next ;;
        Write_corpus c p' storage' (out ++ [line]) rest
      else
        p' <- Shift p next ;;
        Write_corpus c p' storage out rest
  end.

(** The outer loop of [WriteModel] over [c.text] (mark.go, lines 143-186). *)
Fixpoint Write_corpora (c : Chain) (storage : list string)
    (out : list (list string)) (texts : list (list string))
  : outcome (list string * list (list string)) :=
  match texts with
  | [] => Returned (storage, out)
  | t :: rest =>
      p <- make_Prefix (prefixLen c) ;;
      x <- Write_corpus c p storage out t ;;
      Write_corpora c (fst x) (snd x) rest
  end.

(** [func (c *Chain) WriteModel(outFile string)] (mark.go, lines 134-190):
    the chain afterwards and the rows printed after the header; the output
    file is taken to be creatable. *)
Definition WriteModel_rows (c : Chain) : outcome (Chain * list (list string)) :=
  x <- Write_corpora c (prefixStorage c) [] (text c) ;;
  Returned (mkChain (chain c) (prefixLen c) (text c) (pairmap c) (fst x), snd x).

(** The content of the output file. *)
Definition model_file (order : Z) (rows : list (list string)) : string :=
  Fprintln_all (Itoa order :: map (fun line => Join line " ") rows).

Definition WriteModel (c : Chain) : outcome (Chain * string) :=
  x <- WriteModel_rows c ;;
  Returned (fst x, model_file (prefixLen c) (snd x)).

(** *** ReadChainFromFile *)

(** [if str == strconv.Quote("") { fields[index] = str[1 : len(str)-1] }] *)
Definition unquote_field (str : string) : string :=
  if String.eqb str (Quote EmptyString)
  then substring 1 (String.length str - 1 - 1) str
  else str.

(** The loop over the suffixes of one line (mark.go, lines 270-277);
    [left] counts the iterations still to run, [numSuffix - i].  A
    frequency that [Atoi] rejects is reported on standard output only: the
    loop goes on with the value [Atoi] returned.  The indices [sIndex+i+1]
    and [sIndex+i] stay below [len(fields)]. *)
Fixpoint Read_pairs (left : nat) (fields : list string) (pre : string)
    (i sIndex : Z) (pm : gmap string (gmap string Z))
  : outcome (gmap string (gmap string Z)) :=
  match left with
  | O => Returned pm
  | S left' =>
      f <- index fields (sIndex + i + 1) ;;
      let freq := fst (Atoi f) in
      word <- index fields (sIndex + i) ;;
      Read_pairs left' fields pre (i + 1) (sIndex + 1) (bump pm pre word freq)
  end.

(** The body of the loop over the lines after the header (mark.go, lines
    250-277). *)
Definition Read_line (order : Z) (c : Chain) (line : string) : outcome Chain :=
  let fields := map unquote_field (Fields line) in
  pfx <- slice_to fields order ;;
  let pre := Join pfx " " in
  let storage := prefixStorage c ++ [pre] in
  let pm := ensure (pairmap c) pre in
  rest <- slice_from fields order ;;
  let numSuffix := Z.quot (Z.of_nat (length rest)) 2 in
  pm' <- Read_pairs (Z.to_nat numSuffix) fields pre 0 order pm ;;
  Returned (mkChain (chain c) (prefixLen c) (text c) pm' storage).

Fixpoint Read_lines (order : Z) (c : Chain) (lines : list string)
  : outcome Chain :=
  match lines with
  | [] => Returned c
  | l :: rest => c' <- Read_line order c l ;; Read_lines order c' rest
  end.

(** [func ReadChainFromFile(modelfile string) *Chain] (mark.go, lines
    231-280); [file] is the content of the model file, taken to be
    openable.  When the scanner has no first line [scanner.Text()] is
    empty. *)
Definition ReadChainFromFile (file : string) : outcome Chain :=
  let tokens := Scan_all file in
  match Atoi (hd EmptyString tokens) with
  | (_, Some _) =>
      Panicked (ExplicitPanic "error parsing integer value from line 1")
  | (order, None) => Read_lines order (NewChain order) (tl tokens)
  end.

(** *** Generate *)

(** The random source: the raw value of each draw, and the number of draws
    made so far. *)
Record Rand : Type := mkRand { draws : nat -> Z; drawn : nat }.

(** [rand.Intn(n)] *)
Definition Intn (n : Z) (g : Rand) : outcome (Z * Rand) :=
  if n <=? 0 then Panicked IntnInvalidArg
  else Returned (draws g (drawn g) mod n, mkRand (draws g) (S (drawn g))).

Section Generate.

(** The order in which [for key := range choices] visits a map; Go leaves
    it unspecified. *)
Variable range_order : gmap string Z -> list (string * Z).

(** The slice [keys]: each suffix once for each time it was recorded. *)
Definition pool (choices : gmap string Z) : list string :=
  flat_map (fun kv => replicate (Z.to_nat (snd kv)) (fst kv))
           (range_order choices).

(** The loop of [Generate] (mark.go, lines 204-226); [left] counts the
    iterations still allowed, [n - c.prefixLen - i]. *)
Fixpoint Generate_loop (left : nat) (c : Chain) (p : Prefix)
    (words : list string) (g : Rand) : outcome (list string * Rand) :=
  match left with
  | O => Returned (words, g)
  | S left' =>
      let choices := default ∅ (pairmap c !! Prefix_String p) in
      if (size choices =? 0)%nat then Returned (words, g)
      else
        let keys := pool choices in
        x <- Intn (Z.of_nat (length keys)) g ;;
        suffix <- index keys (fst x) ;;
        p' <- Shift p suffix ;;
        Generate_loop left' c p' (words ++ [suffix]) (snd x)
  end.

(** [func (c *Chain) Generate(n int) string] (mark.go, lines 195-228),
    with the slice [words] it joins. *)
Definition Generate_words (c : Chain) (n : Z) (g : Rand)
  : outcome (list string) :=
  x <- Intn (Z.of_nat (length (prefixStorage c))) g ;;
  _ <- make_Prefix (prefixLen c) ;;
  key <- index (prefixStorage c) (fst x) ;;
  let p := Split key " " in
  y <- Generate_loop (Z.to_nat (GoInt.sub n (prefixLen c))) c p
         [Prefix_String p] (snd x) ;;
  Returned (fst y).

Definition Generate (c : Chain) (n : Z) (g : Rand) : outcome string :=
  words <- Generate_words c n g ;;
  Returned (Join words " ").

End Generate.

(** *** main *)

(** [fmt.Println] of operands that are strings: a blank between them and
    a newline at the end. *)
Definition Println (operands : list string) : string :=
  Join operands " " +:+ String newline EmptyString.

(** A slice of strings as [fmt] prints it with the verb [%v]. *)
Definition Sprint_slice (l : list string) : string :=
  String "[" (Join l " " +:+ String "]" EmptyString).

(** What [ReadChainFromFile] prints for a count that [Atoi] rejects
    (mark.go, line 273). *)
Definition diagnostic (fields : list string) : string :=
  Println ["error here: current field is: "%string; Sprint_slice fields].

(** The lines printed by the loop over the suffixes of one line, when it
    runs to its end (mark.go, lines 270-277). *)
Fixpoint Read_pairs_log (left : nat) (fields : list string) (i sIndex : Z)
  : list string :=
  match left with
  | O => []
  | S left' =>
      match index fields (sIndex + i + 1) with
      | Returned f =>
          match snd (Atoi f) with
          | Some _ => [diagnostic fields]
          | None => []
          end ++ Read_pairs_log left' fields (i + 1) (sIndex + 1)
      | Panicked _ => []
      end
  end.

Definition Read_line_log (order : Z) (line : string) : list string :=
  let fields := map unquote_field (Fields line) in
  match slice_from fields order with
  | Returned rest =>
      Read_pairs_log (Z.to_nat (Z.quot (Z.of_nat (length rest)) 2))
                     fields 0 order
  | Panicked _ => []
  end.

(** What [ReadChainFromFile] has printed on standard output when it
    returns. *)
Definition Read_log (file : string) : string :=
  let tokens := Scan_all file in
  match Atoi (hd EmptyString tokens) with
  | (_, Some _) => EmptyString
  | (order, None) =>
      fold_right String.append EmptyString
        (flat_map (Read_line_log order) (tl tokens))
  end.

(** How a run of the program ends: [main] returns, a panic stops it, or
    [flag.Parse] leaves through [os.Exit]. *)
Inductive ending (A : Type) : Type :=
| Ends (a : A)
| Panics (p : panic)
| Exits.
Arguments Ends {A} a.
Arguments Panics {A} p.
Arguments Exits {A}.

(** What a run that came to its end has done: the bytes printed on
    standard output, and the file that [os.Create] made with the content
    written to it. *)
Record effects : Type := mkEffects {
  stdout : string;
  created : option (string * string)
}.

(** [flag.Parse()] when no flag is defined: it looks at the first
    argument after the program name; one of two bytes or more that starts
    with '-' is taken for a flag, and every such argument but the
    terminator "--" is an error, on which the default flag set leaves the
    program. *)
Definition flag_Parse_exits (args : list string) : bool :=
  match args with
  | _ :: String a (String b r) :: _ =>
      Ascii.eqb a "-"
      && negb (String.eqb (String a (String b r)) "--")
  | _ => false
  end.

Section Main.

(** The files of the machine: [open_file name] is the content read from
    the file when [os.Open] succeeds, [can_create name] tells whether
    [os.Create] succeeds. *)
Variable open_file : string -> option string.
Variable can_create : string -> bool.
Variable range_order : gmap string Z -> list (string * Z).

(** The loop over the input files (mark.go, lines 303-314); [out] is what
    has been printed. *)
Fixpoint read_files (c : Chain) (files : list string) (out : string)
  : outcome (Chain * string) :=
  match files with
  | [] => Returned (c, out)
  | name :: rest =>
      let out' := out +:+ Println ["reading file"%string; name] in
      match open_file name with
      | None => Panicked (ExplicitPanic "trouble opening file")
      | Some content =>
          c' <- Build c content ;;
          read_files c' rest out'
      end
  end.

(** The READ branch (mark.go, lines 294-319). *)
Definition main_read (args : list string) : outcome effects :=
  a2 <- index args 2 ;;
  outputFile <- index args 3 ;;
  match snd (Atoi a2) with
  | Some _ => Panicked (ExplicitPanic "trouble parsing int")
  | None =>
      let c := NewChain (fst (Atoi a2)) in
      files <- slice_from args 4 ;;
      x <- read_files c files EmptyString ;;
      if can_create outputFile then
        w <- WriteModel (fst x) ;;
        Returned (mkEffects (snd x) (Some (outputFile, snd w)))
      else Panicked (ExplicitPanic "problem creating output file")
  end.

(** The GENERATE branch (mark.go, lines 321-332). *)
Definition main_generate (args : list string) (g : Rand) : outcome string :=
  modelfile <- index args 2 ;;
  a3 <- index args 3 ;;
  match snd (Atoi a3) with
  | Some _ =>
      Panicked (ExplicitPanic
                  "trouble parsing integer numWords from command line")
  | None =>
      match open_file modelfile with
      | None => Panicked (ExplicitPanic "error opening file")
      | Some content =>
          c <- ReadChainFromFile content ;;
          text <- Generate range_order c (fst (Atoi a3)) g ;;
          Returned (Read_log content +:+ Println [text])
      end
  end.

Definition main_body (args : list string) (g : Rand) : outcome effects :=
  cmd <- index args 1 ;;
  r <- (if String.eqb cmd "read" || String.eqb cmd "READ"
        then main_read args
        else Returned (mkEffects EmptyString None)) ;;
  out <- (if String.eqb cmd "generate" || String.eqb cmd "GENERATE"
          then main_generate args g
          else Returned EmptyString) ;;
  Returned (mkEffects (stdout r +:+ out) (created r)).

(** [func main()] (mark.go, lines 286-334): [args] is [os.Args] and [g]
    the random source as [rand.Seed] leaves it.  A run that panics or
    leaves through [flag.Parse] is described by the way it ends alone:
    what it printed or wrote before is not recorded. *)
Definition main (args : list string) (g : Rand) : ending effects :=
  match args with
  | [] => Panics SliceBounds
  | _ =>
      if flag_Parse_exits args then Exits
      else
        match main_body args g with
        | Returned e => Ends e
        | Panicked p => Panics p
        end
  end.

End Main.

End Mark.

(** ** Notions used to state the properties *)

Module Props.
Import GoLib Mark.

(** No white-space rune starts anywhere in [w]. *)
Fixpoint space_free (w : string) : bool :=
  match w with
  | EmptyString => true
  | String a r => (space_width (String a r) =? 0)%nat && space_free r
  end.

(** A word as [Fscan] and [Fields] deliver them. *)
Definition is_word (w : string) : Prop := w <> EmptyString /\ space_free w = true.

(** Every byte of [s] satisfies [P]. *)
Fixpoint all_bytes (P : ascii -> bool) (s : string) : bool :=
  match s with
  | EmptyString => true
  | String a r => P a && all_bytes P r
  end.




(** The chain's suffix list and frequency entry of a key, empty when the
    key is absent. *)
Definition suffixes (c : Chain) (key : string) : list string :=
  default [] (chain c !! key).

Definition entry (c : Chain) (key : string) : gmap string Z :=
  default ∅ (pairmap c !! key).

(** The window after [s] has entered it. *)
Definition slide (p : Prefix) (s : string) : Prefix := tail p ++ [s].

(** The window of [k] empty words a corpus starts from. *)
Definition start (k : Z) : Prefix := replicate (Z.to_nat k) EmptyString.

(** The transitions of a corpus: each word with the window it follows. *)
Fixpoint windows (p : Prefix) (ws : list string) : list (Prefix * string) :=
  match ws with
  | [] => []
  | s :: rest => (p, s) :: windows (slide p s) rest
  end.

(** The transitions of all corpora, in order. *)
Definition trace (k : Z) (texts : list (list string)) : list (Prefix * string) :=
  flat_map (windows (start k)) texts.



(** How many times [key] occurs in [l]. *)
Definition occurrences (key : string) (l : list string) : nat :=
  length (filter (fun x => x = key) l).


(** How many times the window with key [key] is followed by [w] in [T]. *)
Definition followed (T : list (Prefix * string)) (key w : string) : nat :=
  length (filter (fun t => Prefix_String (fst t) = key /\ snd t = w) T).

(** The two-character marker written for an empty word. *)
Definition empty_marker : string := String dquote (String dquote EmptyString).

(** What [Build] maintains between the chain and the transitions [T] it
    has ingested. *)
Record Built (T : list (Prefix * string)) (c : Chain) : Prop := mkBuilt {
  b_keys : forall key,
    is_Some (pairmap c !! key)
    <-> key ∈ map (fun t => Prefix_String (fst t)) T;
  b_nodup : forall key, NoDup (suffixes c key);
  b_entry : forall key w, w ∈ suffixes c key <-> is_Some (entry c key !! w);
  b_trans : forall p s, (p, s) ∈ T -> s ∈ suffixes c (Prefix_String p);
  b_words : forall key w, w ∈ suffixes c key -> w ∈ map snd T;
  b_count : forall key w,
    count (pairmap c) key w = GoInt.wrap (Z.of_nat (followed T key w))
}.




(** The prefix key the reader takes from a line. *)
Definition line_key (order : Z) (line : string) : string :=
  Join (take (Z.to_nat order) (map unquote_field (Fields line))) " ".

(** A random source whose draws are all 0. *)
Definition zero_draws : Rand := mkRand (fun _ => 0) 0.


(** The model file with the given lines. *)
Definition file_of (lines : list string) : string := Fprintln_all lines.

(** *** Notions for the further properties *)

(** [p.Shift(w)] for each word of [ws] in turn. *)
Fixpoint Shift_all (p : Prefix) (ws : list string) : outcome Prefix :=
  match ws with
  | [] => Returned p
  | w :: rest => p' <- Shift p w ;; Shift_all p' rest
  end.

(** No blank in [w]. *)
Definition blank_free (w : string) : bool :=
  all_bytes (fun a => negb (Ascii.eqb a " ")) w.



(** The suffixes of a line two by two: each word with the value [Atoi]
    gives for the field after it; a last field left alone is dropped. *)
Fixpoint pairs_up (l : list string) : list (string * Z) :=
  match l with
  | w :: f :: rest => (w, fst (Atoi f)) :: pairs_up rest
  | _ => []
  end.

(** The sum of the values paired with [w]. *)
Definition freq_sum (w : string) (ps : list (string * Z)) : Z :=
  foldr Z.add 0 (map snd (filter (fun wf => fst wf = w) ps)).

(** The fields of a line as the reader sees them. *)
Definition line_fields (line : string) : list string :=
  map unquote_field (Fields line).

(** A walk in the table: each word has a positive count after the window
    it is drawn for. *)
Fixpoint valid_walk (c : Chain) (p : Prefix) (sfxs : list string) : Prop :=
  match sfxs with
  | [] => True
  | s :: rest =>
      0 < count (pairmap c) (Prefix_String p) s
      /\ valid_walk c (slide p s) rest
  end.

Section Walk.

Variable range_order : gmap string Z -> list (string * Z).

(** A walk as [Generate] draws it: each word is in the pool made for the
    window it follows. *)
Fixpoint pool_walk (c : Chain) (p : Prefix) (sfxs : list string) : Prop :=
  match sfxs with
  | [] => True
  | s :: rest =>
      s ∈ pool range_order (default ∅ (pairmap c !! Prefix_String p))
      /\ pool_walk c (slide p s) rest
  end.

End Walk.

(** A model of order 1 in which [a] and [b] follow each other. *)
Definition ab_model : Chain :=
  mkChain ∅ 1 [] {[ "a" := {[ "b" := 1 ]}; "b" := {[ "a" := 2 ]} ]} ["a"; "b"].

(** A model of order 1 in which nothing follows [b]. *)
Definition dead_end_model : Chain :=
  mkChain ∅ 1 [] {[ "a" := {[ "b" := 1 ]} ]} ["a"].

(** A machine with one file that opens. *)
Definition in_file (name content : string) (other : string) : option string :=
  if String.eqb other name then Some content else None.

End Props.

(** * Properties of the library model *)

Module GoLibFacts.
Import GoLib Props.

Lemma space_width_ascii a r :
  space_width (String a r) = 0%nat -> is_ascii_space (byte_val a) = false.
Proof.
  destruct r as [|b [|c r]]; simpl;
    destruct (is_ascii_space (byte_val a)); congruence.
Qed.





Lemma space_width_prefix a w t :
  space_width (String a (w +:+ t)) = 0%nat -> space_width (String a w) = 0%nat.
Proof.
  intros H. pose proof (space_width_ascii _ _ H) as Ha.
  destruct w as [|b [|c w]]; simpl in *; rewrite Ha in *; try reflexivity.
  - destruct t; simpl in H; [exact H|].
    destruct (is_space2 (byte_val a) (byte_val b)); [discriminate|reflexivity].
  - exact H.
Qed.





Lemma pieces_sound s :
  forall skip,
    Forall (fun w => space_free w = true) (pieces skip s)
    /\ (skip = 0%nat -> exists t, s = hd EmptyString (pieces 0 s) +:+ t).
Proof.
  induction s as [|a r IH]; intros skip.
  - split; [repeat constructor | intros _; now exists EmptyString].
  - destruct skip as [|n].
    + cbn [pieces]. destruct (space_width (String a r)) as [|m] eqn:Hw.
      * destruct (IH 0%nat) as [Hall Hpre].
        destruct (Hpre eq_refl) as [t Ht].
        destruct (pieces 0 r) as [|w ws] eqn:Hp.
        { split; [|intros _; now exists r].
          repeat constructor. cbn [space_free].
          now rewrite (space_width_prefix a EmptyString r Hw). }
        cbn [hd] in Ht. split.
        -- apply Forall_cons in Hall as [Hsw Hall]. constructor; [|assumption].
           cbn [space_free]. apply andb_true_intro. split; [|assumption].
           apply Nat.eqb_eq. apply (space_width_prefix a w t).
           now rewrite <- Ht.
        -- intros _. exists t. cbn [hd]. now rewrite Ht at 1.
      * split; [|intros _; now exists (String a r)].
        constructor; [reflexivity|]. apply IH.
    + split; [apply IH | discriminate].
Qed.

(** [Fscan] delivers words: never empty, free of white space. *)
Lemma Fscan_words_are_words r : Forall is_word (Fscan_words r).
Proof.
  unfold Fscan_words. apply Forall_forall. intros w Hw.
  apply list_elem_of_filter in Hw as [Hne Hin].
  split; [exact Hne|].
  destruct (pieces_sound r 0%nat) as [Hall _].
  rewrite Forall_forall in Hall. now apply Hall.
Qed.

Lemma Fields_are_words s : Forall is_word (Fields s).
Proof. exact (Fscan_words_are_words s). Qed.

(** *** Bytes of words and lines *)







(** *** Itoa and Atoi *)




















Lemma wrap_add_l a b : GoInt.wrap (GoInt.wrap a + b) = GoInt.wrap (a + b).
Proof.
  unfold GoInt.wrap. f_equal.
  replace ((a + 2 ^ 63) mod 2 ^ 64 - 2 ^ 63 + b + 2 ^ 63)
    with ((a + 2 ^ 63) mod 2 ^ 64 + b) by lia.
  rewrite Zplus_mod_idemp_l. f_equal. lia.
Qed.

Lemma wrap_id z : GoInt.in_range z -> GoInt.wrap z = z.
Proof.
  unfold GoInt.in_range, GoInt.wrap, GoInt.min_int, GoInt.max_int. intros H.
  rewrite Z.mod_small by lia. lia.
Qed.

End GoLibFacts.

(** * Properties of the program *)

Module MarkFacts.
Import GoLib Mark Props GoLibFacts.

Lemma Find_spec l v : Find l v = true <-> v ∈ l.
Proof.
  induction l as [|x l IH]; cbn [Find].
  - split; [discriminate|]. intros H. inversion H.
  - destruct (String.eqb_spec x v) as [->|Hne].
    + split; [intros _; constructor|reflexivity].
    + rewrite IH. split; [now constructor|].
      intros H. inversion H; subst; [congruence|assumption].
Qed.

Lemma Find_false l v : Find l v = false <-> v ∉ l.
Proof.
  rewrite <- Find_spec. destruct (Find l v); split; congruence.
Qed.

Lemma Shift_slide p s : p <> [] -> Shift p s = Returned (slide p s).
Proof. destruct p; [congruence|reflexivity]. Qed.


Lemma slide_nonempty p s : slide p s <> [].
Proof. unfold slide. destruct (tail p); discriminate. Qed.

(** *** The frequency table under [ensure] and [bump] *)

Lemma bump_ensure pm key w d :
  bump (ensure pm key) key w d
  = <[key := <[w := GoInt.add (count pm key w) d]> (default ∅ (pm !! key))]> pm.
Proof.
  unfold bump, ensure, count. destruct (pm !! key) as [m|] eqn:Hk.
  - now rewrite Hk.
  - rewrite lookup_insert_eq. cbn [default]. now rewrite insert_insert_eq.
Qed.

Lemma count_bump pm key w d key' w' :
  count (bump pm key w d) key' w'
  = if decide (key' = key /\ w' = w) then GoInt.add (count pm key w) d
    else count pm key' w'.
Proof.
  unfold bump. unfold count at 1. destruct (decide (key' = key)) as [->|Hk].
  - rewrite lookup_insert_eq. cbn [default from_option id].
    destruct (decide (w' = w)) as [->|Hw].
    + rewrite lookup_insert_eq. now rewrite decide_True by done.
    + rewrite lookup_insert_ne by done. rewrite decide_False by tauto. done.
  - rewrite lookup_insert_ne by done. rewrite decide_False by tauto. done.
Qed.

(** The chain after the loop body of [Build] has run on [s] in window [p]. *)
Lemma Build_word_eq c p s :
  p <> [] ->
  Build_word c p s
  = Returned
      (mkChain
         (if Find (suffixes c (Prefix_String p)) s then chain c
          else <[Prefix_String p := suffixes c (Prefix_String p) ++ [s]]> (chain c))
         (prefixLen c) (text c)
         (<[Prefix_String p :=
              <[s := GoInt.add (count (pairmap c) (Prefix_String p) s) 1]>
                (entry c (Prefix_String p))]> (pairmap c))
         (prefixStorage c),
       slide p s).
Proof.
  intros Hp. unfold Build_word. rewrite (Shift_slide _ _ Hp), bump_ensure.
  reflexivity.
Qed.

Lemma Build_word_spec T c p s :
  p <> [] -> Built T c ->
  exists c', Build_word c p s = Returned (c', slide p s)
    /\ Built (T ++ [(p, s)]) c'
    /\ prefixLen c' = prefixLen c /\ text c' = text c
    /\ prefixStorage c' = prefixStorage c.
Proof.
  intros Hp HB. rewrite (Build_word_eq _ _ _ Hp).
  eexists. split; [reflexivity|]. split; [|done].
  set (key0 := Prefix_String p).
  set (l := suffixes c key0).
  assert (Hsfx : forall key,
    suffixes (mkChain
         (if Find l s then chain c else <[key0 := l ++ [s]]> (chain c))
         (prefixLen c) (text c)
         (<[key0 := <[s := GoInt.add (count (pairmap c) key0 s) 1]>
                (entry c key0)]> (pairmap c))
         (prefixStorage c)) key
    = if decide (key = key0) then (if Find l s then l else l ++ [s])
      else suffixes c key).
  { intros key. unfold suffixes at 1. cbn [chain].
    destruct (Find l s); destruct (decide (key = key0)) as [->|Hne]; try done.
    - now rewrite lookup_insert_eq.
    - now rewrite lookup_insert_ne. }
  assert (Hent : forall key,
    entry (mkChain
         (if Find l s then chain c else <[key0 := l ++ [s]]> (chain c))
         (prefixLen c) (text c)
         (<[key0 := <[s := GoInt.add (count (pairmap c) key0 s) 1]>
                (entry c key0)]> (pairmap c))
         (prefixStorage c)) key
    = if decide (key = key0)
      then <[s := GoInt.add (count (pairmap c) key0 s) 1]> (entry c key0)
      else entry c key).
  { intros key. unfold entry at 1. cbn [pairmap].
    destruct (decide (key = key0)) as [->|Hne].
    - now rewrite lookup_insert_eq.
    - now rewrite lookup_insert_ne. }
  destruct HB as [Hkeys Hnd Hentry Htrans Hwords Hrange].
  split.
  - intros key. cbn [pairmap]. rewrite map_app, elem_of_app.
    rewrite <- Hkeys. cbn [map fst]. fold key0.
    rewrite lookup_insert_is_Some. rewrite list_elem_of_singleton.
    destruct (decide (key0 = key)) as [->|]; intuition congruence.
  - intros key. rewrite Hsfx. destruct (decide (key = key0)); [|apply Hnd].
    destruct (Find l s) eqn:HF; [apply Hnd|].
    apply NoDup_app. split; [apply Hnd|]. split; [|apply NoDup_singleton].
    intros x Hx Hx'. apply list_elem_of_singleton in Hx'. subst x.
    apply Find_false in HF. done.
  - intros key w. rewrite Hsfx, Hent.
    destruct (decide (key = key0)) as [->|Hne]; [|apply Hentry].
    rewrite lookup_insert_is_Some'. rewrite <- Hentry. fold l.
    destruct (Find l s) eqn:HF.
    + apply Find_spec in HF. intuition (subst; auto).
    + rewrite elem_of_app, list_elem_of_singleton. intuition congruence.
  - intros p' s' Hin. rewrite Hsfx.
    apply elem_of_app in Hin as [Hin|Hin].
    + apply Htrans in Hin. destruct (decide (Prefix_String p' = key0)) as [Heq|]; [|done].
      rewrite Heq in Hin. fold l in Hin. destruct (Find l s); [done|]. apply elem_of_app; by left.
    + apply list_elem_of_singleton in Hin. injection Hin as -> ->.
      fold key0. rewrite decide_True by done.
      destruct (Find l s) eqn:HF; [by apply Find_spec|].
      apply elem_of_app; right. by apply list_elem_of_singleton.
  - intros key w. rewrite Hsfx, map_app, elem_of_app. cbn [map snd].
    destruct (decide (key = key0)) as [->|Hne].
    + destruct (Find l s) eqn:HF.
      * intros Hw. left. by eapply Hwords.
      * rewrite elem_of_app. intros [Hw|Hw]; [left; by eapply Hwords|by right].
    + intros Hw. left. by eapply Hwords.
  - intros key w. cbn [pairmap].
    pose proof (count_bump (pairmap c) key0 s 1 key w) as Hc.
    unfold bump in Hc. fold (entry c key0) in Hc. rewrite Hc.
    unfold followed. rewrite filter_app, length_app, filter_cons, filter_nil.
    cbn [fst snd]. fold key0. case_decide as Heq.
    + destruct Heq as [-> ->]. rewrite decide_True by done.
      rewrite Hrange. unfold GoInt.add, followed. rewrite wrap_add_l.
      f_equal. cbn [length]. lia.
    + rewrite decide_False by (intros [? ?]; apply Heq; done).
      rewrite Hrange. unfold followed. f_equal. cbn [length]. lia.
Qed.

Lemma Built_fields T c c' :
  chain c' = chain c -> pairmap c' = pairmap c -> Built T c -> Built T c'.
Proof.
  intros Hc Hp [H1 H2 H3 H4 H5 H6].
  split; unfold suffixes, entry in *; rewrite ?Hc, ?Hp; assumption.
Qed.

Lemma Built_NewChain k : Built [] (NewChain k).
Proof.
  split; unfold suffixes, entry; cbn [NewChain chain pairmap map].
  - intros key. rewrite lookup_empty, elem_of_nil. split; [intros [? ?]; done|done].
  - intros key. rewrite lookup_empty. apply NoDup_nil_2.
  - intros key w. rewrite !lookup_empty. cbn. rewrite lookup_empty, elem_of_nil.
    split; [done|intros [? ?]; done].
  - intros p s H. by apply elem_of_nil in H.
  - intros key w. rewrite lookup_empty. cbn. intros H. by apply elem_of_nil in H.
  - intros key w. unfold count. rewrite lookup_empty. cbn.
    now rewrite lookup_empty.
Qed.

Lemma Build_loop_spec ws : forall T c p cur,
  p <> [] -> Built T c ->
  exists c', Build_loop c p cur ws = Returned (c', cur ++ ws)
    /\ Built (T ++ windows p ws) c'
    /\ prefixLen c' = prefixLen c /\ text c' = text c
    /\ prefixStorage c' = prefixStorage c.
Proof.
  induction ws as [|s ws IH]; intros T c p cur Hp HB.
  - exists c. cbn [Build_loop windows]. rewrite !app_nil_r. done.
  - destruct (Build_word_spec T c p s Hp HB) as (c1 & Hw & HB1 & Hk & Ht & Hs).
    destruct (IH (T ++ [(p, s)]) c1 (slide p s) (cur ++ [s])
                 (slide_nonempty p s) HB1) as (c2 & Hl & HB2 & Hk2 & Ht2 & Hs2).
    exists c2. cbn [Build_loop windows]. rewrite Hw. cbn [bind fst snd].
    rewrite <- !app_assoc in *. cbn [app] in *.
    split_and!; [exact Hl|exact HB2|congruence..].
Qed.

Lemma start_nonempty k : 1 <= k -> start k <> [].
Proof.
  intros Hk. unfold start. destruct (Z.to_nat k) eqn:E; [lia|discriminate].
Qed.

Lemma make_Prefix_start k : 0 <= k -> make_Prefix k = Returned (start k).
Proof.
  intros Hk. unfold make_Prefix.
  now replace (k <? 0) with false by (symmetry; apply Z.ltb_ge; lia).
Qed.

Lemma Build_spec T c r :
  1 <= prefixLen c -> Built T c ->
  exists c', Build c r = Returned c'
    /\ Built (T ++ windows (start (prefixLen c)) (Fscan_words r)) c'
    /\ prefixLen c' = prefixLen c
    /\ text c' = text c ++ [Fscan_words r]
    /\ prefixStorage c' = prefixStorage c.
Proof.
  intros Hk HB. unfold Build. rewrite make_Prefix_start by lia. cbn [bind].
  destruct (Build_loop_spec (Fscan_words r) T c (start (prefixLen c)) []
              (start_nonempty _ Hk) HB) as (c1 & Hl & HB1 & Hk1 & Ht1 & Hs1).
  rewrite Hl. cbn [bind fst snd app]. eexists. split; [reflexivity|].
  cbn [prefixLen text prefixStorage]. rewrite Ht1.
  split_and!; try assumption; try reflexivity.
  now apply (Built_fields _ c1).
Qed.

Lemma trace_snoc k texts t :
  trace k (texts ++ [t]) = trace k texts ++ windows (start k) t.
Proof. unfold trace. rewrite flat_map_app. cbn. now rewrite app_nil_r. Qed.

Lemma Build_all_spec files : forall k c,
  1 <= k -> prefixLen c = k -> Built (trace k (text c)) c ->
  exists c', Build_all c files = Returned c'
    /\ Built (trace k (text c')) c'
    /\ prefixLen c' = k
    /\ text c' = text c ++ map Fscan_words files
    /\ prefixStorage c' = prefixStorage c.
Proof.
  induction files as [|r files IH]; intros k c Hk Hlen HB.
  - exists c. cbn. now rewrite app_nil_r.
  - destruct (Build_spec _ c r ltac:(lia) HB) as (c1 & Hb & HB1 & Hk1 & Ht1 & Hs1).
    rewrite Hlen, <- trace_snoc, <- Ht1 in HB1.
    destruct (IH k c1 Hk ltac:(congruence) HB1) as (c2 & Hb2 & HB2 & Hk2 & Ht2 & Hs2).
    exists c2. cbn [Build_all]. rewrite Hb. cbn [bind].
    split_and!; try assumption; [|congruence].
    rewrite Ht2, Ht1, <- app_assoc. reflexivity.
Qed.

(** From a fresh chain of order [k >= 1], ingesting the files succeeds. *)
Lemma Build_all_NewChain k files :
  1 <= k ->
  exists c, Build_all (NewChain k) files = Returned c
    /\ Built (trace k (text c)) c
    /\ prefixLen c = k
    /\ text c = map Fscan_words files
    /\ prefixStorage c = [].
Proof.
  intros Hk.
  destruct (Build_all_spec files k (NewChain k) Hk eq_refl (Built_NewChain k))
    as (c & H1 & H2 & H3 & H4 & H5).
  exists c. done.
Qed.

(** *** The replay of [WriteModel] *)





(** *** First occurrences *)







(** *** Windows and their words *)

Lemma windows_snd ws : forall p, map snd (windows p ws) = ws.
Proof.
  induction ws as [|s ws IH]; intros p; [reflexivity|].
  cbn [windows map snd]. now rewrite IH.
Qed.



Lemma trace_snd k texts : map snd (trace k texts) = concat texts.
Proof.
  unfold trace. induction texts as [|t texts IH]; [reflexivity|].
  cbn [flat_map concat]. now rewrite map_app, windows_snd, IH.
Qed.





(** With an order below 1 [Build] can only return when it met no word:
    the tables stay as they were. *)
Lemma Build_all_degenerate files : forall c0 c,
  prefixLen c0 <= 0 -> Build_all c0 files = Returned c ->
  chain c = chain c0 /\ pairmap c = pairmap c0.
Proof.
  induction files as [|r files IH]; intros c0 c Hk Hb; cbn [Build_all] in Hb.
  - now injection Hb as <-.
  - unfold Build, make_Prefix in Hb.
    destruct (Z.ltb_spec (prefixLen c0) 0) as [Hneg|Hpos]; [discriminate|].
    replace (prefixLen c0) with 0 in Hb at 1 by lia. cbn [Z.to_nat replicate bind] in Hb.
    destruct (Fscan_words r) as [|s ws]; [|discriminate].
    cbn [Build_loop bind fst snd] in Hb.
    apply IH in Hb; [exact Hb|exact Hk].
Qed.

Lemma Built_words_are_words k files c w key :
  Built (trace k (text c)) c -> text c = map Fscan_words files ->
  w ∈ suffixes c key -> is_word w.
Proof.
  intros HB Ht Hw. apply (b_words _ _ HB) in Hw.
  rewrite trace_snd, Ht in Hw.
  apply list_elem_of_In, in_concat in Hw as (t & Ht' & Hw).
  apply in_map_iff in Ht' as (r & <- & _).
  pose proof (Fscan_words_are_words r) as Hall. rewrite Forall_forall in Hall.
  apply Hall. now apply list_elem_of_In.
Qed.

Lemma format_suffixes_words c key l :
  Forall (fun w => w <> EmptyString) l ->
  format_suffixes c key l
  = flat_map (fun w => [w; Itoa (count (pairmap c) key w)]) l.
Proof.
  unfold format_suffixes. induction 1 as [|w l Hw Hl IH]; [reflexivity|].
  cbn [flat_map]. rewrite IH.
  destruct (String.eqb_spec w EmptyString); [done|reflexivity].
Qed.




(** *** Reading back what was written *)

Lemma index_lookup (l : list string) (i : nat) x :
  l !! i = Some x -> index l (Z.of_nat i) = Returned x.
Proof.
  intros H. unfold index. pose proof (lookup_lt_Some _ _ _ H) as Hlt.
  replace (Z.of_nat i <? 0) with false by (symmetry; apply Z.ltb_ge; lia).
  replace (Z.of_nat (length l) <=? Z.of_nat i) with false
    by (symmetry; apply Z.leb_gt; lia).
  cbn [orb]. now rewrite Nat2Z.id, H.
Qed.






Lemma unquote_marker : unquote_field empty_marker = EmptyString.
Proof. reflexivity. Qed.


















(** *** Generate *)

Lemma Split_cons s sep : exists w ws, Split s sep = w :: ws.
Proof.
  destruct s as [|a r]; cbn [Split]; [eauto|].
  destruct (Ascii.eqb a sep); [eauto|]. destruct (Split r sep); eauto.
Qed.

Lemma Join_cons_String a w ws :
  Join (String a w :: ws) " " = String a (Join (w :: ws) " ").
Proof. destruct ws; reflexivity. Qed.

(** Splitting a key at its blanks and joining the pieces gives the key. *)
Lemma Join_Split s : Join (Split s " ") " " = s.
Proof.
  induction s as [|a r IH]; [reflexivity|]. cbn [Split].
  destruct (Ascii.eqb_spec a " ") as [->|Hne].
  - destruct (Split_cons r " ") as (w & ws & E). rewrite E in *.
    change (Join (EmptyString :: w :: ws) " ")
      with (String " " (Join (w :: ws) " ")).
    now rewrite IH.
  - destruct (Split_cons r " ") as (w & ws & E). rewrite E in *.
    now rewrite Join_cons_String, IH.
Qed.

Section GenerateFacts.

Variable range_order : gmap string Z -> list (string * Z).

Lemma Intn_range n g x g' :
  Intn n g = Returned (x, g') -> 0 <= x < n.
Proof.
  unfold Intn. destruct (Z.leb_spec n 0) as [Hn|Hn]; [discriminate|].
  intros HI. injection HI as <- _. apply Z.mod_pos_bound. lia.
Qed.

Lemma index_in_range (l : list string) i :
  0 <= i < Z.of_nat (length l) -> exists x, index l i = Returned x /\ x ∈ l.
Proof.
  intros Hi. destruct (lookup_lt_is_Some_2 l (Z.to_nat i)) as [x Hx]; [lia|].
  exists x. split; [|by eapply list_elem_of_lookup_2].
  rewrite <- (Z2Nat.id i) by lia. now apply index_lookup.
Qed.

(** When the bound [n - c.prefixLen] of the loop is not positive,
    [Generate] returns one of the keys of [prefixStorage], as it stands. *)
Lemma Generate_no_iteration c n g :
  prefixStorage c <> [] -> 0 <= prefixLen c ->
  GoInt.sub n (prefixLen c) <= 0 ->
  exists key,
    key ∈ prefixStorage c
    /\ Generate_words range_order c n g = Returned [key]
    /\ Generate range_order c n g = Returned key.
Proof.
  intros Hne Hk Hn. unfold Generate, Generate_words.
  destruct (Intn (Z.of_nat (length (prefixStorage c))) g) as [[x g']|e] eqn:HI.
  2:{ unfold Intn in HI. destruct (prefixStorage c); [done|].
      cbn [length] in HI. destruct (Z.leb_spec (Z.of_nat (S (length l))) 0);
        [lia|discriminate]. }
  apply Intn_range in HI.
  destruct (index_in_range _ _ HI) as (key & Hidx & Hin).
  exists key. cbn [bind fst snd]. rewrite make_Prefix_start by exact Hk.
  cbn [bind]. rewrite Hidx. cbn [bind].
  replace (Z.to_nat (GoInt.sub n (prefixLen c))) with 0%nat by lia.
  cbn [Generate_loop bind fst]. unfold Prefix_String. rewrite Join_Split.
  split_and!; [exact Hin|reflexivity|reflexivity].
Qed.

End GenerateFacts.

Lemma Generate_loop_dead_end range_order left c p words g :
  pairmap c !! Prefix_String p = None ->
  Generate_loop range_order left c p words g = Returned (words, g).
Proof. intros H. destruct left; [reflexivity|]. cbn [Generate_loop]. now rewrite H. Qed.

(** *** What [ReadChainFromFile] records for each line *)

Lemma Read_line_storage order c l c' :
  Read_line order c l = Returned c' ->
  prefixLen c' = prefixLen c
  /\ prefixStorage c' = prefixStorage c ++ [line_key order l]
  /\ 0 <= order <= Z.of_nat (length (Fields l)).
Proof.
  unfold Read_line, slice_to. rewrite length_map.
  destruct (Z.ltb_spec order 0) as [H0|H0]; [discriminate|].
  destruct (Z.ltb_spec (Z.of_nat (length (Fields l))) order) as [H1|H1];
    [discriminate|].
  cbn [orb bind]. destruct (slice_from _ order); [|discriminate]. cbn [bind].
  destruct (Read_pairs _ _ _ _ _ _); [|discriminate]. cbn [bind].
  intros H. injection H as <-. cbn [prefixLen prefixStorage].
  split_and!; [reflexivity|reflexivity|lia|exact H1].
Qed.

Lemma Read_lines_storage order lines : forall c c',
  Read_lines order c lines = Returned c' ->
  prefixLen c' = prefixLen c
  /\ prefixStorage c' = prefixStorage c ++ map (line_key order) lines
  /\ (lines <> [] -> 0 <= order)
  /\ Forall (fun l => order <= Z.of_nat (length (Fields l))) lines.
Proof.
  induction lines as [|l lines IH]; intros c c' H; cbn [Read_lines] in H.
  - injection H as <-. rewrite app_nil_r. split_and!; try done.
  - destruct (Read_line order c l) as [c1|] eqn:H1; [|discriminate].
    cbn [bind] in H. apply Read_line_storage in H1 as (Hk1 & Hs1 & Ho1).
    apply IH in H as (Hk & Hs & _ & Hall).
    split_and!.
    + congruence.
    + rewrite Hs, Hs1, <- app_assoc. reflexivity.
    + intros _. lia.
    + constructor; [lia|exact Hall].
Qed.

(** A chain loaded from a file: its order list holds the key of each line
    after the header, in order, one entry for each line. *)
Lemma ReadChainFromFile_storage file c :
  ReadChainFromFile file = Returned c ->
  prefixStorage c = map (line_key (prefixLen c)) (tl (Scan_all file))
  /\ (prefixStorage c <> [] -> 0 <= prefixLen c)
  /\ Forall (fun l => prefixLen c <= Z.of_nat (length (Fields l)))
            (tl (Scan_all file)).
Proof.
  unfold ReadChainFromFile.
  destruct (Atoi (hd EmptyString (Scan_all file))) as [order [e|]];
    [discriminate|].
  intros H. apply Read_lines_storage in H as (Hk & Hs & Ho & Hall).
  cbn [NewChain prefixLen prefixStorage app] in Hk, Hs. rewrite Hk.
  split_and!; [exact Hs| |exact Hall].
  rewrite Hs. intros Hne. apply Ho. intros E. now rewrite E in Hne.
Qed.

Section GenerateBounds.

Variable range_order : gmap string Z -> list (string * Z).

Lemma Generate_loop_length left : forall c p words g ws g',
  Generate_loop range_order left c p words g = Returned (ws, g') ->
  (length ws <= length words + left)%nat.
Proof.
  induction left as [|left IH]; intros c p words g ws g' H;
    cbn [Generate_loop] in H.
  - injection H as <- _. lia.
  - destruct (size (default ∅ (pairmap c !! Prefix_String p)) =? 0)%nat.
    { injection H as <- _. lia. }
    destruct (Intn _ g) as [x|]; [|discriminate]. cbn [bind] in H.
    destruct (index _ _) as [suffix|]; [|discriminate]. cbn [bind] in H.
    destruct (Shift p suffix) as [p'|]; [|discriminate]. cbn [bind] in H.
    apply IH in H. rewrite length_app in H. cbn [length] in H. lia.
Qed.

(** What the code does guarantee about the length of the output: the
    starting key, and at most [n - c.prefixLen] words after it. *)
Lemma Generate_words_bound c n g ws :
  Generate_words range_order c n g = Returned ws ->
  (length ws <= 1 + Z.to_nat (GoInt.sub n (prefixLen c)))%nat.
Proof.
  unfold Generate_words. intros H.
  destruct (Intn _ g) as [x|]; [|discriminate]. cbn [bind] in H.
  destruct (make_Prefix _); [|discriminate]. cbn [bind] in H.
  destruct (index _ _) as [key|]; [|discriminate]. cbn [bind] in H.
  destruct (Generate_loop _ _ _ _ _ _) as [[ws' g']|] eqn:HL; [|discriminate].
  cbn [bind fst] in H. injection H as <-.
  apply Generate_loop_length in HL. cbn [length] in HL. lia.
Qed.

(** On a loaded model, a request for [n <= k] words for which [n - k] does
    not wrap around returns the [k] words of a starting prefix, those of
    one of the lines of the file. *)
Lemma Generate_short_request file c n g :
  ReadChainFromFile file = Returned c ->
  prefixStorage c <> [] ->
  n <= prefixLen c -> GoInt.min_int <= n - prefixLen c ->
  exists line toks,
    line ∈ tl (Scan_all file)
    /\ toks = take (Z.to_nat (prefixLen c)) (map unquote_field (Fields line))
    /\ length toks = Z.to_nat (prefixLen c)
    /\ Generate range_order c n g = Returned (Join toks " ").
Proof.
  intros Hread Hne Hn Hmin.
  apply ReadChainFromFile_storage in Hread as (Hs & Hk & Hall).
  specialize (Hk Hne).
  destruct (Generate_no_iteration range_order c n g Hne Hk)
    as (key & Hin & _ & HG).
  { unfold GoInt.sub. rewrite wrap_id; [lia|].
    unfold GoInt.in_range, GoInt.max_int. lia. }
  rewrite Hs in Hin. apply list_elem_of_fmap in Hin as (line & -> & Hline).
  exists line, (take (Z.to_nat (prefixLen c)) (map unquote_field (Fields line))).
  split_and!; [exact Hline|reflexivity| |exact HG].
  rewrite Forall_forall in Hall. specialize (Hall line Hline).
  rewrite length_take, length_map. lia.
Qed.

End GenerateBounds.





(** *** The program on the example of its documentation *)

Ltac run := vm_compute; reflexivity.
Ltac decide_by_run := apply (bool_decide_unpack _); vm_compute; exact I.

(** With prefixes of two words, "I am" is followed once by "a" and once by
    "not". *)
Example I_am_entry :
  exists c,
    Build (NewChain 2) "I am not a number! I am a free man!" = Returned c
    /\ pairmap c !! "I am"%string
       = Some {[ "a"%string := 1; "not"%string := 1 ]}
    /\ chain c !! "I am"%string = Some ["not"; "a"]%string.
Proof. eexists. split; [run|]. split; run. Qed.

(** The model file written for it. *)
Example I_am_file :
  (c <- Build (NewChain 2) "I am not a number! I am a free man!" ;;
   x <- WriteModel c ;;
   Returned (snd x))
  = Returned
      (file_of
         ["2"%string;
          Join [empty_marker; empty_marker; "I"; "1"]%string " ";
          Join [empty_marker; "I"; "am"; "1"]%string " ";
          "I am not 1 a 1"%string;
          "am not a 1"%string;
          "not a number! 1"%string;
          "a number! I 1"%string;
          "number! I am 1"%string;
          "am a free 1"%string;
          "a free man! 1"%string]).
Proof. run. Qed.

(** A corpus shorter than the order: the row of the all-empty prefix has
    the marker once for each empty word, and reads back with empty words. *)
Example short_corpus :
  exists c c' file c'',
    Build (NewChain 3) "one" = Returned c
    /\ WriteModel c = Returned (c', file)
    /\ file = file_of ["3"%string;
                       Join [empty_marker; empty_marker; empty_marker;
                             "one"; "1"]%string " "]
    /\ ReadChainFromFile file = Returned c''
    /\ prefixStorage c'' = ["  "%string]
    /\ pairmap c'' = {[ "  "%string := {[ "one"%string := 1 ]} ]}.
Proof.
  eexists _, _, _, _.
  split; [run|]. split; [run|]. split; [run|]. split; [run|].
  split; run.
Qed.

(** A walk over the loaded model, every draw being 0. *)
Example I_am_walk :
  (c <- Build (NewChain 2) "I am not a number! I am a free man!" ;;
   x <- WriteModel c ;;
   c' <- ReadChainFromFile (snd x) ;;
   Generate map_to_list c' 6 zero_draws)
  = Returned "  I am a free"%string.
Proof. run. Qed.

(** ** The claims of the specification *)








(** C4: the code at the failing input.  In the file of order 1 with the
    rows [a b x] and [c d 2] the count [x] is not an integer; [Atoi]
    reports a syntax error and the value 0, and the reader goes on: it
    returns a chain with both rows in it, [b] recorded with the count 0.
    A header that is not an integer, by contrast, makes the reader panic. *)
Theorem C4_bad_count_is_read_as_zero :
  Atoi "x" = (0, Some ErrSyntax)
  /\ ReadChainFromFile (file_of ["1"; "a b x"; "c d 2"])
     = Returned (mkChain ∅ 1 []
                   {[ "a"%string := {[ "b"%string := 0 ]};
                      "c"%string := {[ "d"%string := 2 ]} ]}
                   ["a"; "c"]%string)
  /\ ReadChainFromFile (file_of ["x"; "a b 1"; "c d 2"])
     = Panicked (ExplicitPanic "error parsing integer value from line 1").
Proof.
  split; [reflexivity|]. split; vm_compute; reflexivity.
Qed.

(** C5, as amended: on a chain whose [prefixStorage] is empty [Generate]
    panics inside [rand.Intn], which rejects the argument 0, before the
    list is indexed: it returns nothing, and no index is out of range. *)
Theorem C5_empty_storage_panics range_order c n g :
  prefixStorage c = [] ->
  Generate range_order c n g = Panicked IntnInvalidArg.
Proof.
  intros H. unfold Generate, Generate_words. now rewrite H.
Qed.

Lemma C5_witness :
  prefixStorage (NewChain 2) = []
  /\ Generate map_to_list (NewChain 2) 5 zero_draws = Panicked IntnInvalidArg.
Proof.
  split; [reflexivity|]. apply (C5_empty_storage_panics map_to_list). reflexivity.
Defined.

(** C5 as stated fails: called on a fresh chain, [Generate] returns no
    value at all, so no error value either. *)
Lemma C5_counterexample :
  prefixStorage (NewChain 2) = []
  /\ ~ exists r, Generate map_to_list (NewChain 2) 5 zero_draws = Returned r.
Proof.
  split; [reflexivity|]. intros [r H]. discriminate H.
Qed.

(** C6: the code at the failing input.  The model of order 2 with the one
    row [a b c 1] is loaded and one word is asked for: [Generate] returns
    the whole starting prefix, two words. *)
Theorem C6_one_word_asked_two_returned :
  exists c,
    ReadChainFromFile (file_of ["2"; "a b c 1"]) = Returned c
    /\ prefixLen c = 2
    /\ prefixStorage c = ["a b"]
    /\ forall range_order g,
         Generate range_order c 1 g = Returned "a b"
         /\ length (Fields "a b") = 2%nat.
Proof.
  eexists. split; [vm_compute; reflexivity|].
  split; [reflexivity|]. split; [reflexivity|].
  intros range_order g. split; [|reflexivity].
  match goal with |- Generate _ ?c _ _ = _ =>
    destruct (Generate_no_iteration range_order c 1 g) as (key & Hin & _ & HG)
  end.
  - discriminate.
  - cbn. lia.
  - vm_compute. discriminate.
  - cbn [prefixStorage] in Hin. apply list_elem_of_singleton in Hin.
    now rewrite HG, Hin.
Qed.

(** C7: the code at the failing input.  The model of order 1 with the one
    row [a b 1] is loaded and the least int is asked for, a number of words
    below the order: the bound [n - c.prefixLen] of the loop wraps around
    to the greatest int, the loop runs, and [Generate] returns a word more
    than the starting prefix. *)
Theorem C7_least_int_asked :
  exists c,
    ReadChainFromFile (file_of ["1"; "a b 1"]) = Returned c
    /\ prefixLen c = 1
    /\ prefixStorage c = ["a"]
    /\ GoInt.min_int <= prefixLen c
    /\ GoInt.sub GoInt.min_int (prefixLen c) = GoInt.max_int
    /\ Generate map_to_list c GoInt.min_int zero_draws = Returned "a b".
Proof.
  eexists. split; [vm_compute; reflexivity|].
  split; [reflexivity|]. split; [reflexivity|].
  split; [vm_compute; discriminate|]. split; [reflexivity|].
  unfold Generate, Generate_words. cbn [prefixStorage prefixLen length].
  change (Intn (Z.of_nat 1) zero_draws) with (Returned (0, mkRand (fun _ => 0) 1)).
  cbn [bind fst snd]. change (make_Prefix 1) with (Returned [EmptyString]).
  cbn [bind]. change (index ["a"] 0) with (Returned "a"%string). cbn [bind].
  change (Split "a" " ") with ["a"%string].
  change (Prefix_String ["a"%string]) with "a"%string.
  change (GoInt.sub GoInt.min_int 1) with GoInt.max_int.
  remember (Z.to_nat GoInt.max_int) as left eqn:Hleft.
  destruct left as [|left]; [unfold GoInt.max_int in Hleft; lia|].
  cbn [Generate_loop pairmap].
  change (Prefix_String ["a"%string]) with "a"%string.
  match goal with |- context [default ∅ (?m !! "a"%string)] =>
    change (default ∅ (m !! "a"%string)) with ({[ "b"%string := 1 ]} : gmap string Z)
  end.
  change (size ({[ "b"%string := 1 ]} : gmap string Z)) with 1%nat.
  cbn [Nat.eqb]. 
  change (pool map_to_list ({[ "b"%string := 1 ]} : gmap string Z)) with ["b"%string].
  change (Intn (Z.of_nat (length ["b"%string])) (mkRand (fun _ => 0) 1))
    with (Returned (0, mkRand (fun _ : nat => 0) 2)).
  cbn [bind fst snd]. change (index ["b"%string] 0) with (Returned "b"%string).
  cbn [bind Shift app].
  rewrite Generate_loop_dead_end by reflexivity.
  reflexivity.
Qed.




(** C9: every suffix word that [Build] records comes from [Fscan] and is
    therefore not empty, in the frequency table and in the chain alike; so
    when [WriteModel] formats the suffixes of a key it only ever takes the
    branch that emits the word together with its frequency. *)
Theorem C9_recorded_suffixes_nonempty k files c :
  Build_all (NewChain k) files = Returned c ->
  (forall key m w n,
      pairmap c !! key = Some m -> m !! w = Some n -> w <> EmptyString)
  /\ (forall key,
        Forall (fun w => w <> EmptyString) (suffixes c key)
        /\ format_suffixes c key (suffixes c key)
           = flat_map (fun w => [w; Itoa (count (pairmap c) key w)])
                      (suffixes c key)).
Proof.
  intros Hb.
  assert (Hsfx : forall key, Forall (fun w => w <> EmptyString) (suffixes c key)
                 /\ forall w, is_Some (entry c key !! w) -> w ∈ suffixes c key).
  { destruct (Z.le_gt_cases 1 k) as [Hk|Hk].
    - destruct (Build_all_NewChain k files Hk) as (c' & Hb' & HB & _ & Ht & _).
      rewrite Hb in Hb'. injection Hb' as <-. intros key. split.
      + apply Forall_forall. intros w Hw.
        exact (proj1 (Built_words_are_words _ _ _ _ _ HB Ht Hw)).
      + intros w. apply (b_entry _ _ HB).
    - apply Build_all_degenerate in Hb as [Hc Hp]; [|cbn; lia].
      intros key. unfold suffixes, entry. rewrite Hc, Hp. cbn.
      rewrite !lookup_empty. cbn. split; [constructor|].
      intros w [? Hw]. by rewrite lookup_empty in Hw. }
  split.
  - intros key m w n Hm Hw. destruct (Hsfx key) as [Hall Hin].
    rewrite Forall_forall in Hall. apply Hall, Hin.
    unfold entry. rewrite Hm. cbn. by exists n.
  - intros key. destruct (Hsfx key) as [Hall _]. split; [exact Hall|].
    now apply format_suffixes_words.
Qed.

Lemma C9_witness :
  Build_all (NewChain 1) ["a"%string] = Returned (mkChain {[ EmptyString := ["a"%string] ]} 1 [["a"%string]] {[ EmptyString := {[ "a"%string := 1 ]} ]} [])
  /\ (forall key m w n,
          pairmap (mkChain {[ EmptyString := ["a"%string] ]} 1 [["a"%string]] {[ EmptyString := {[ "a"%string := 1 ]} ]} []) !! key = Some m -> m !! w = Some n -> w <> EmptyString).
Proof.
  split; [vm_compute; reflexivity|].
  apply (C9_recorded_suffixes_nonempty 1 ["a"%string]). vm_compute. reflexivity.
Defined.

(** C10: a chain loaded from a file has in its order list the key of each
    line after the header, one entry for each line whether or not the key
    was met before; and for the file with the two rows [a b 1] and [a b 2]
    the key [a] is twice in the list while the table has the single entry
    [a] with the count 3 for [b]. *)
Theorem C10_one_entry_per_line :
  (forall file,
      match ReadChainFromFile file with
      | Returned c =>
          prefixStorage c = map (line_key (prefixLen c)) (tl (Scan_all file))
      | Panicked _ => True
      end)
  /\ exists c,
       ReadChainFromFile (file_of ["1"; "a b 1"; "a b 2"]) = Returned c
       /\ prefixStorage c = ["a"; "a"]
       /\ occurrences "a" (prefixStorage c) = 2%nat
       /\ pairmap c = {[ "a"%string := {[ "b"%string := 3 ]} ]}.
Proof.
  split.
  - intros file. destruct (ReadChainFromFile file) as [c|] eqn:H; [|exact I].
    now apply ReadChainFromFile_storage in H.
  - eexists. split; [vm_compute; reflexivity|].
    split; [reflexivity|]. split; [reflexivity|]. vm_compute. reflexivity.
Qed.

(** ** Further properties of the code *)

Lemma Shift_all_slide ws : forall p,
  p <> [] -> Shift_all p ws = Returned (drop (length ws) (p ++ ws)).
Proof.
  induction ws as [|w ws IH]; intros p Hp; cbn [Shift_all length].
  - now rewrite app_nil_r.
  - rewrite (Shift_slide _ _ Hp). cbn [bind].
    rewrite (IH _ (slide_nonempty p w)). f_equal.
    destruct p as [|x p]; [done|]. unfold slide. cbn [tail app drop].
    now rewrite <- app_assoc.
Qed.

(** X1: shifting words into a prefix that is not empty always succeeds and
    leaves the last [len(p)] words of the old prefix followed by the new
    words, so the prefix keeps its length; after as many words as the
    prefix is long it holds exactly those words.  On an empty prefix
    [Shift] panics. *)
Theorem X1_Shift_window p ws :
  p <> [] ->
  Shift_all p ws = Returned (drop (length ws) (p ++ ws))
  /\ length (drop (length ws) (p ++ ws)) = length p
  /\ (length ws = length p -> Shift_all p ws = Returned ws)
  /\ forall w, Shift [] w = Panicked SliceBounds.
Proof.
  intros Hp. pose proof (Shift_all_slide ws p Hp) as H. split_and!.
  - exact H.
  - rewrite length_drop, length_app. lia.
  - intros Hlen. rewrite H, Hlen. now rewrite drop_app_length.
  - reflexivity.
Qed.

Lemma X1_witness :
  ["a"; "b"]%string <> []
  /\ Shift_all ["a"; "b"]%string ["c"; "d"; "e"]%string
     = Returned ["d"; "e"]%string.
Proof.
  assert (H : ["a"; "b"]%string <> []) by discriminate.
  split; [exact H|].
  exact (proj1 (X1_Shift_window ["a"; "b"]%string ["c"; "d"; "e"]%string H)).
Defined.

Lemma Split_blank_free w :
  blank_free w = true -> Split w " " = [w].
Proof.
  unfold blank_free. induction w as [|a w IH]; [reflexivity|].
  cbn [all_bytes Split]. intros H. apply andb_prop in H as [Ha Hw].
  apply negb_true_iff in Ha. rewrite Ha, (IH Hw). reflexivity.
Qed.

Lemma Split_app_blank w r :
  blank_free w = true ->
  Split (w +:+ String " " r) " " = w :: Split r " ".
Proof.
  unfold blank_free. induction w as [|a w IH]; [reflexivity|].
  cbn [all_bytes]. intros H. apply andb_prop in H as [Ha Hw].
  apply negb_true_iff in Ha.
  change (String a w +:+ String " " r) with (String a (w +:+ String " " r)).
  cbn [Split]. rewrite Ha, (IH Hw). reflexivity.
Qed.

Lemma Split_Join p :
  p <> [] -> Forall (fun w => blank_free w = true) p ->
  Split (Prefix_String p) " " = p.
Proof.
  unfold Prefix_String. intros Hp Hall.
  induction Hall as [|w p Hw Hall IH]; [done|].
  destruct p as [|w' p'].
  - cbn [Join]. now apply Split_blank_free.
  - change (Join (w :: w' :: p') " ")
      with (w +:+ String " " (Join (w' :: p') " ")).
    rewrite (Split_app_blank _ _ Hw), IH by discriminate. reflexivity.
Qed.

(** X2: the key of a prefix, used as the map key, determines the prefix:
    splitting the key at its blanks gives back a non-empty prefix whose
    words have no blank, so two such prefixes with the same key are the
    same prefix. *)
Theorem X2_key_determines_prefix p q :
  p <> [] -> q <> [] ->
  Forall (fun w => blank_free w = true) p ->
  Forall (fun w => blank_free w = true) q ->
  Split (Prefix_String p) " " = p
  /\ (Prefix_String p = Prefix_String q -> p = q).
Proof.
  intros Hp Hq Hbp Hbq. split; [now apply Split_Join|].
  intros E. rewrite <- (Split_Join p Hp Hbp), <- (Split_Join q Hq Hbq).
  now rewrite E.
Qed.

Lemma X2_witness :
  [EmptyString; "I"%string] <> [] /\ [EmptyString; "I"%string] <> []
  /\ Split (Prefix_String [EmptyString; "I"%string]) " " = [EmptyString; "I"%string].
Proof.
  assert (H : [EmptyString; "I"%string] <> []) by discriminate.
  split; [exact H|]. split; [exact H|].
  refine (proj1 (X2_key_determines_prefix _ _ H H _ _));
    repeat constructor.
Defined.

(** X3: [Find] tells whether the value is an element of the slice. *)
Theorem X3_Find_membership slice val :
  (Find slice val = true <-> val ∈ slice)
  /\ (Find slice val = false <-> val ∉ slice).
Proof. split; [apply Find_spec|apply Find_false]. Qed.

(** *** More on what Build records *)



Section BuildInvariant.

(** A property of the chain and the transitions ingested that depends on
    the tables only and that the loop body of [Build] keeps. *)
Variable Inv : list (Prefix * string) -> Chain -> Prop.
Hypothesis Inv_tables : forall T c c',
  chain c' = chain c -> pairmap c' = pairmap c -> Inv T c -> Inv T c'.
Hypothesis Inv_step : forall T c p s,
  p <> [] -> Inv T c ->
  Inv (T ++ [(p, s)])
      (mkChain
         (if Find (suffixes c (Prefix_String p)) s then chain c
          else <[Prefix_String p := suffixes c (Prefix_String p) ++ [s]]> (chain c))
         (prefixLen c) (text c)
         (<[Prefix_String p :=
              <[s := GoInt.add (count (pairmap c) (Prefix_String p) s) 1]>
                (entry c (Prefix_String p))]> (pairmap c))
         (prefixStorage c)).



End BuildInvariant.





















(** *** More on WriteModel *)








Lemma Write_corpus_appends c ws : forall p storage out storage' out',
  Write_corpus c p storage out ws = Returned (storage', out') ->
  exists new rows,
    storage' = storage ++ new /\ out' = out ++ rows
    /\ length new = length rows
    /\ NoDup new /\ Forall (fun key => key ∉ storage) new.
Proof.
  induction ws as [|s ws IH]; intros p storage out storage' out' H;
    cbn [Write_corpus] in H.
  - injection H as <- <-. exists [], []. rewrite !app_nil_r.
    split_and!; try done; constructor.
  - destruct (length (default [] (chain c !! Prefix_String p)) =? 0)%nat.
    { injection H as <- <-. exists [], []. rewrite !app_nil_r.
      split_and!; try done; constructor. }
    destruct (Shift p s) as [p'|]; [|destruct (Find _ _); discriminate].
    destruct (Find storage (Prefix_String p)) eqn:HF; cbn [negb bind] in H.
    + now apply IH in H.
    + apply IH in H as (new & rows & -> & -> & Hlen & Hnd & Hnot).
      apply Find_false in HF.
      exists (Prefix_String p :: new), (format_line c p :: rows).
      rewrite <- !app_assoc. cbn [app length].
      split_and!; try done; [lia| |].
      * constructor; [|exact Hnd]. intros Hin.
        rewrite Forall_forall in Hnot. apply (Hnot _ Hin).
        apply elem_of_app. right. constructor.
      * constructor; [exact HF|]. eapply Forall_impl; [exact Hnot|].
        intros key Hk Hin. apply Hk, elem_of_app. now left.
Qed.

Lemma Write_corpora_appends c texts : forall storage out storage' out',
  Write_corpora c storage out texts = Returned (storage', out') ->
  exists new rows,
    storage' = storage ++ new /\ out' = out ++ rows
    /\ length new = length rows
    /\ NoDup new /\ Forall (fun key => key ∉ storage) new.
Proof.
  induction texts as [|t texts IH]; intros storage out storage' out' H;
    cbn [Write_corpora] in H.
  - injection H as <- <-. exists [], []. rewrite !app_nil_r.
    split_and!; try done; constructor.
  - destruct (make_Prefix (prefixLen c)) as [p|]; [|discriminate].
    cbn [bind] in H.
    destruct (Write_corpus c p storage out t) as [[s1 o1]|] eqn:H1;
      [|discriminate].
    cbn [bind fst snd] in H.
    apply Write_corpus_appends in H1 as (n1 & r1 & -> & -> & L1 & N1 & F1).
    apply IH in H as (n2 & r2 & -> & -> & L2 & N2 & F2).
    exists (n1 ++ n2), (r1 ++ r2). rewrite <- !app_assoc, !length_app.
    split_and!; try done; [lia| |].
    + apply NoDup_app. split_and!; [exact N1| |exact N2].
      intros key Hin1 Hin2. rewrite Forall_forall in F2.
      apply (F2 _ Hin2), elem_of_app. now right.
    + apply Forall_app. split; [exact F1|].
      eapply Forall_impl; [exact F2|]. intros key Hk Hin.
      apply Hk, elem_of_app. now left.
Qed.

(** X10: on any chain, when [WriteModel] returns it has left [chain],
    [pairmap], [text] and the order as they were and has only appended to
    [prefixStorage]: one key for each row printed, none of them in the
    list before, no two of them equal. *)
Theorem X10_write_only_appends c c' rows :
  WriteModel_rows c = Returned (c', rows) ->
  chain c' = chain c /\ pairmap c' = pairmap c /\ text c' = text c
  /\ prefixLen c' = prefixLen c
  /\ exists new,
       prefixStorage c' = prefixStorage c ++ new
       /\ length new = length rows
       /\ NoDup new
       /\ Forall (fun key => key ∉ prefixStorage c) new.
Proof.
  unfold WriteModel_rows. intros H.
  destruct (Write_corpora c (prefixStorage c) [] (text c)) as [[s o]|] eqn:E;
    [|discriminate].
  cbn [bind fst snd] in H. injection H as <- <-.
  apply Write_corpora_appends in E as (new & rows & -> & -> & L & N & F).
  cbn. split_and!; try reflexivity. now exists new.
Qed.

Lemma X10_witness :
  WriteModel_rows
    (mkChain {[ EmptyString := ["a"%string]; "a"%string := ["b"%string] ]} 1
             [["a"; "b"]%string]
             {[ EmptyString := {[ "a"%string := 1 ]};
                "a"%string := {[ "b"%string := 1 ]} ]} [EmptyString])
  = Returned
      (mkChain {[ EmptyString := ["a"%string]; "a"%string := ["b"%string] ]} 1
               [["a"; "b"]%string]
               {[ EmptyString := {[ "a"%string := 1 ]};
                  "a"%string := {[ "b"%string := 1 ]} ]} [EmptyString; "a"%string],
       [["a"; "b"; "1"]%string])
  /\ exists new,
       [EmptyString; "a"%string] = [EmptyString] ++ new
       /\ length new = 1%nat.
Proof.
  assert (H : WriteModel_rows
    (mkChain {[ EmptyString := ["a"%string]; "a"%string := ["b"%string] ]} 1
             [["a"; "b"]%string]
             {[ EmptyString := {[ "a"%string := 1 ]};
                "a"%string := {[ "b"%string := 1 ]} ]} [EmptyString])
  = Returned
      (mkChain {[ EmptyString := ["a"%string]; "a"%string := ["b"%string] ]} 1
               [["a"; "b"]%string]
               {[ EmptyString := {[ "a"%string := 1 ]};
                  "a"%string := {[ "b"%string := 1 ]} ]} [EmptyString; "a"%string],
       [["a"; "b"; "1"]%string])) by (vm_compute; reflexivity).
  split; [exact H|].
  destruct (X10_write_only_appends _ _ _ H) as (_ & _ & _ & _ & new & H1 & H2 & _).
  exists new. split; [exact H1|exact H2].
Defined.

(** *** More on ReadChainFromFile *)

Lemma index_app_middle (done rest : list string) x :
  index (done ++ x :: rest) (Z.of_nat (length done)) = Returned x.
Proof. apply index_lookup. now apply list_lookup_middle. Qed.

(** The loop over the suffixes walks the fields after the prefix two by
    two and never panics. *)
Lemma Read_pairs_pairs_up left : forall rest done i sIndex pm pre,
  sIndex + i = Z.of_nat (length done) ->
  left = (length rest / 2)%nat ->
  Read_pairs left (done ++ rest) pre i sIndex pm
  = Returned (fold_left (fun pm wf => bump pm pre (fst wf) (snd wf))
                        (pairs_up rest) pm).
Proof.
  induction left as [|left IH]; intros rest done i sIndex pm pre Hi Hleft.
  - cbn [Read_pairs]. destruct rest as [|w [|f rest]]; try reflexivity.
    cbn [length] in Hleft. change (S (S (length rest)))%nat
      with (2 + length rest)%nat in Hleft.
    pose proof (Nat.div_add_l 1 2 (length rest) ltac:(lia)) as H.
    rewrite Nat.mul_1_l in H. lia.
  - destruct rest as [|w [|f rest]]; try (cbn in Hleft; lia).
    cbn [Read_pairs pairs_up fold_left fst snd].
    replace (sIndex + i + 1) with (Z.of_nat (length (done ++ [w])))
      by (rewrite length_app; cbn [length]; lia).
    replace (done ++ w :: f :: rest) with ((done ++ [w]) ++ f :: rest)
      by (now rewrite <- app_assoc).
    rewrite index_app_middle. cbn [bind].
    replace ((done ++ [w]) ++ f :: rest) with (done ++ w :: f :: rest)
      by (now rewrite <- app_assoc).
    rewrite Hi, index_app_middle. cbn [bind].
    replace (done ++ w :: f :: rest) with ((done ++ [w; f]) ++ rest)
      by (now rewrite <- app_assoc).
    apply IH.
    + rewrite length_app. cbn [length]. lia.
    + cbn [length] in Hleft. change (S (S (length rest)))%nat
        with (2 + length rest)%nat in Hleft.
      pose proof (Nat.div_add_l 1 2 (length rest) ltac:(lia)) as H.
      rewrite Nat.mul_1_l in H. lia.
Qed.

(** What the loop body of the reader does with a line that has at least
    [order] fields. *)
Lemma Read_line_eq order c l :
  0 <= order <= Z.of_nat (length (Fields l)) ->
  Read_line order c l
  = Returned
      (mkChain (chain c) (prefixLen c) (text c)
         (fold_left (fun pm wf => bump pm (line_key order l) (fst wf) (snd wf))
                    (pairs_up (drop (Z.to_nat order) (line_fields l)))
                    (ensure (pairmap c) (line_key order l)))
         (prefixStorage c ++ [line_key order l])).
Proof.
  intros [H0 H1]. unfold Read_line, slice_to, slice_from. fold (line_fields l).
  assert (Hlen : length (line_fields l) = length (Fields l))
    by (unfold line_fields; apply length_map).
  rewrite Hlen.
  replace (order <? 0) with false by (symmetry; apply Z.ltb_ge; lia).
  replace (Z.of_nat (length (Fields l)) <? order) with false
    by (symmetry; apply Z.ltb_ge; lia).
  cbn [orb bind]. fold (line_key order l).
  change (Join (take (Z.to_nat order) (line_fields l)) " ")
    with (line_key order l).
  rewrite <- (take_drop (Z.to_nat order) (line_fields l)) at 2.
  rewrite (Read_pairs_pairs_up _ (drop (Z.to_nat order) (line_fields l))).
  - reflexivity.
  - rewrite length_take, Hlen. lia.
  - rewrite Z.quot_div_nonneg by lia.
    rewrite <- (Nat2Z.inj_div _ 2). now rewrite Nat2Z.id.
Qed.

Lemma Read_line_panics order c l :
  order < 0 \/ Z.of_nat (length (Fields l)) < order ->
  Read_line order c l = Panicked SliceBounds.
Proof.
  intros H. unfold Read_line, slice_to. rewrite length_map.
  destruct (Z.ltb_spec order 0); [reflexivity|].
  destruct (Z.ltb_spec (Z.of_nat (length (Fields l))) order); [reflexivity|lia].
Qed.

Lemma Read_lines_outcome order lines : forall c,
  (Forall (fun l => 0 <= order <= Z.of_nat (length (Fields l))) lines ->
   exists c', Read_lines order c lines = Returned c')
  /\ (~ Forall (fun l => 0 <= order <= Z.of_nat (length (Fields l))) lines ->
      Read_lines order c lines = Panicked SliceBounds).
Proof.
  induction lines as [|l lines IH]; intros c.
  - split; [intros _; now exists c|]. intros H. exfalso. apply H. constructor.
  - cbn [Read_lines].
    destruct (decide (0 <= order <= Z.of_nat (length (Fields l)))) as [Hl|Hl].
    + rewrite (Read_line_eq _ _ _ Hl). cbn [bind]. split.
      * intros H. apply Forall_cons in H as [_ H]. now apply IH.
      * intros H. apply IH. intros H'. apply H. now constructor.
    + rewrite Read_line_panics by lia. split; [|reflexivity].
      intros H. apply Forall_cons in H as [H _]. done.
Qed.

(** X11: the reader returns a model exactly when the first line is an int
    and every later line has at least that many fields, the int not being
    negative if there is such a line.  It panics with the message of the
    program when the first line is not an int (or there is none), and at
    the slice expression [fields[0:order]] on a line with too few fields;
    the loop over the suffixes never panics. *)
Theorem X11_reader_returns_iff file :
  let header := Atoi (hd EmptyString (Scan_all file)) in
  let fits := Forall (fun l => 0 <= fst header
                               <= Z.of_nat (length (Fields l)))
                     (tl (Scan_all file)) in
  ((exists c, ReadChainFromFile file = Returned c)
   <-> snd header = None /\ fits)
  /\ (snd header <> None ->
      ReadChainFromFile file
      = Panicked (ExplicitPanic "error parsing integer value from line 1"))
  /\ (snd header = None -> ~ fits ->
      ReadChainFromFile file = Panicked SliceBounds).
Proof.
  intros header fits. unfold ReadChainFromFile. subst header fits.
  destruct (Atoi (hd EmptyString (Scan_all file))) as [order [e|]];
    cbn [fst snd].
  - split_and!.
    + split; [intros [c H]; discriminate|intros [H _]; discriminate].
    + reflexivity.
    + intros H. discriminate.
  - destruct (Read_lines_outcome order (tl (Scan_all file)) (NewChain order))
      as [Hyes Hno].
    split_and!.
    + split.
      * intros [c H]. split; [reflexivity|].
        destruct (decide (Forall (fun l => 0 <= order
                            <= Z.of_nat (length (Fields l)))
                            (tl (Scan_all file)))) as [Hf|Hf]; [exact Hf|].
        rewrite (Hno Hf) in H. discriminate.
      * intros [_ Hf]. now apply Hyes.
    + intros H. done.
    + intros _ Hf. now apply Hno.
Qed.

Lemma pairs_up_dangling l x :
  Nat.Even (length l) -> pairs_up (l ++ [x]) = pairs_up l.
Proof.
  intros [n Hn]. revert l Hn.
  induction n as [|n IH]; intros l Hn; destruct l as [|w [|f l]];
    cbn [length] in Hn; try lia; [reflexivity|].
  cbn [app pairs_up]. f_equal. apply IH. lia.
Qed.

(** X12: a field left alone after the last word/count pair of a line is
    ignored: the line reads as it would without it. *)
Theorem X12_dangling_field_ignored order c l l' x :
  Fields l' = Fields l ++ [x] ->
  0 <= order <= Z.of_nat (length (Fields l)) ->
  Nat.Even (length (Fields l) - Z.to_nat order) ->
  Read_line order c l' = Read_line order c l.
Proof.
  intros Hf Ho Hev.
  rewrite (Read_line_eq order c l Ho).
  rewrite (Read_line_eq order c l')
    by (rewrite Hf, length_app; cbn [length]; lia).
  assert (Hfields : line_fields l' = line_fields l ++ [unquote_field x])
    by (unfold line_fields; now rewrite Hf, map_app).
  assert (Hlen : length (line_fields l) = length (Fields l))
    by (unfold line_fields; apply length_map).
  assert (Hkey : line_key order l' = line_key order l).
  { unfold line_key. fold (line_fields l') (line_fields l).
    rewrite Hfields, take_app_le by lia. reflexivity. }
  rewrite Hkey, Hfields, drop_app_le by lia.
  rewrite pairs_up_dangling; [reflexivity|].
  now rewrite length_drop, Hlen.
Qed.

Lemma X12_witness :
  Fields "a b 1 c" = Fields "a b 1" ++ ["c"%string]
  /\ 0 <= 1 <= Z.of_nat (length (Fields "a b 1"))
  /\ Nat.Even (length (Fields "a b 1") - Z.to_nat 1)
  /\ Read_line 1 (NewChain 1) "a b 1 c" = Read_line 1 (NewChain 1) "a b 1".
Proof.
  assert (H1 : Fields "a b 1 c" = Fields "a b 1" ++ ["c"%string])
    by (vm_compute; reflexivity).
  assert (H2 : 0 <= 1 <= Z.of_nat (length (Fields "a b 1")))
    by (vm_compute; split; discriminate).
  assert (H3 : Nat.Even (length (Fields "a b 1") - Z.to_nat 1))
    by (exists 1%nat; vm_compute; reflexivity).
  split; [exact H1|]. split; [exact H2|]. split; [exact H3|].
  exact (X12_dangling_field_ignored 1 (NewChain 1) _ _ _ H1 H2 H3).
Defined.

Lemma count_ensure pm key key' w :
  count (ensure pm key) key' w = count pm key' w.
Proof.
  unfold count, ensure. destruct (pm !! key) eqn:E; [reflexivity|].
  destruct (decide (key' = key)) as [->|Hne].
  - rewrite lookup_insert_eq, E. reflexivity.
  - now rewrite lookup_insert_ne.
Qed.

Lemma freq_sum_absent w ps : w ∉ map fst ps -> freq_sum w ps = 0.
Proof.
  unfold freq_sum. induction ps as [|[w0 f0] ps IH]; intros H; [reflexivity|].
  cbn [map fst] in H. rewrite filter_cons. cbn [fst].
  rewrite decide_False by (intros ->; apply H; constructor).
  apply IH. intros Hin. apply H. now constructor.
Qed.

Lemma count_bump_fold pre ps : forall pm key w,
  count (fold_left (fun pm wf => bump pm pre (fst wf) (snd wf)) ps pm) key w
  = if decide (key = pre /\ w ∈ map fst ps)
    then GoInt.wrap (count pm key w + freq_sum w ps)
    else count pm key w.
Proof.
  induction ps as [|[w0 f0] ps IH]; intros pm key w; cbn [fold_left map fst snd].
  - rewrite decide_False; [reflexivity|]. intros [_ H]. by apply elem_of_nil in H.
  - rewrite IH, count_bump.
    destruct (decide (key = pre)) as [->|Hk].
    + destruct (decide (w = w0)) as [->|Hw].
      * rewrite (decide_True (P := pre = pre /\ w0 = w0)) by done.
        rewrite (decide_True (P := pre = pre /\ w0 ∈ w0 :: map fst ps))
          by (split; [done|constructor]).
        assert (Hsum : freq_sum w0 ((w0, f0) :: ps) = f0 + freq_sum w0 ps).
        { unfold freq_sum. rewrite filter_cons. cbn [fst].
          now rewrite decide_True by done. }
        rewrite Hsum. unfold GoInt.add.
        destruct (decide (pre = pre /\ w0 ∈ map fst ps)) as [_|Hn].
        -- rewrite wrap_add_l. f_equal. lia.
        -- rewrite freq_sum_absent by tauto. f_equal. lia.
      * rewrite (decide_False (P := pre = pre /\ w = w0)) by tauto.
        assert (Hsum : freq_sum w ((w0, f0) :: ps) = freq_sum w ps).
        { unfold freq_sum. rewrite filter_cons. cbn [fst].
          now rewrite decide_False by congruence. }
        rewrite Hsum.
        destruct (decide (pre = pre /\ w ∈ map fst ps)) as [[_ Hin]|Hn].
        -- rewrite decide_True by (split; [done|now constructor]). reflexivity.
        -- rewrite decide_False; [reflexivity|]. intros [_ H].
           apply elem_of_cons in H as [?|?]; [congruence|]. apply Hn. done.
    + rewrite !(decide_False (P := key = pre /\ _)) by tauto. reflexivity.
Qed.

(** X13: reading a line adds, for each word that has a count on the line,
    the sum of its counts there to the count the table already has for
    the line's key and that word, as an int; every other count stays as
    it was, and the key is appended to the order list. *)
Theorem X13_line_adds_counts order c l c' :
  Read_line order c l = Returned c' ->
  let pre := line_key order l in
  let pairs := pairs_up (drop (Z.to_nat order) (line_fields l)) in
  prefixStorage c' = prefixStorage c ++ [pre]
  /\ is_Some (pairmap c' !! pre)
  /\ forall key w,
       count (pairmap c') key w
       = if decide (key = pre /\ w ∈ map fst pairs)
         then GoInt.wrap (count (pairmap c) key w + freq_sum w pairs)
         else count (pairmap c) key w.
Proof.
  intros H pre pairs.
  pose proof (Read_line_storage _ _ _ _ H) as (_ & _ & Ho).
  rewrite (Read_line_eq _ _ _ Ho) in H. injection H as <-.
  cbn [prefixStorage pairmap]. fold pre pairs. split_and!.
  - reflexivity.
  - assert (Hs : forall ps pm, is_Some (pm !! pre) ->
        is_Some (fold_left (fun pm wf => bump pm pre (fst wf) (snd wf)) ps pm
                 !! pre)).
    { induction ps as [|wf ps IH]; intros pm Hpm; [exact Hpm|].
      cbn [fold_left]. apply IH. unfold bump. rewrite lookup_insert_eq. eauto. }
    apply Hs. unfold ensure. destruct (pairmap c !! pre) eqn:E.
    + rewrite E. eauto.
    + rewrite lookup_insert_eq. eauto.
  - intros key w. rewrite count_bump_fold, !count_ensure. reflexivity.
Qed.

Lemma X13_witness :
  Read_line 1 (NewChain 1) "a b 1 c 5 b 2"
  = Returned (mkChain ∅ 1 []
                {[ "a"%string := {[ "b"%string := 3; "c"%string := 5 ]} ]}
                ["a"%string])
  /\ count {[ "a"%string := {[ "b"%string := 3; "c"%string := 5 ]} ]}
           "a" "b"
     = GoInt.wrap (0 + freq_sum "b"
                         (pairs_up (drop (Z.to_nat 1)
                                         (line_fields "a b 1 c 5 b 2")))).
Proof.
  assert (H : Read_line 1 (NewChain 1) "a b 1 c 5 b 2"
  = Returned (mkChain ∅ 1 []
                {[ "a"%string := {[ "b"%string := 3; "c"%string := 5 ]} ]}
                ["a"%string])) by (vm_compute; reflexivity).
  split; [exact H|].
  destruct (X13_line_adds_counts _ _ _ _ H) as (_ & _ & Hc).
  specialize (Hc "a"%string "b"%string). cbn [pairmap] in Hc.
  rewrite Hc. vm_compute. reflexivity.
Defined.

Lemma Read_lines_tables order lines : forall c c',
  Read_lines order c lines = Returned c' ->
  chain c' = chain c /\ text c' = text c.
Proof.
  induction lines as [|l lines IH]; intros c c' H; cbn [Read_lines] in H.
  - now injection H as <-.
  - destruct (Read_line order c l) as [c1|] eqn:H1; [|discriminate].
    cbn [bind] in H. apply IH in H as [H2 H3].
    pose proof (Read_line_storage _ _ _ _ H1) as (_ & _ & Ho).
    rewrite (Read_line_eq _ _ _ Ho) in H1. injection H1 as <-.
    now cbn in *.
Qed.

(** X14: a chain loaded from a model file has the order of the header, an
    empty suffix table and no word lists, so [WriteModel] on it writes the
    header alone and leaves it as it is: a model cannot be written back
    from what [ReadChainFromFile] loads. *)
Theorem X14_loaded_model_writes_header_only file c :
  ReadChainFromFile file = Returned c ->
  Atoi (hd EmptyString (Scan_all file)) = (prefixLen c, None)
  /\ chain c = ∅ /\ text c = []
  /\ WriteModel c = Returned (c, Fprintln_all [Itoa (prefixLen c)]).
Proof.
  unfold ReadChainFromFile.
  destruct (Atoi (hd EmptyString (Scan_all file))) as [order [e|]];
    [discriminate|].
  intros H. pose proof (Read_lines_tables _ _ _ _ H) as [Hc Ht].
  pose proof (Read_lines_storage _ _ _ _ H) as (Hk & _).
  cbn [NewChain chain text prefixLen] in Hc, Ht, Hk.
  split_and!; [now rewrite Hk|exact Hc|exact Ht|].
  unfold WriteModel, WriteModel_rows. rewrite Ht.
  cbn [Write_corpora bind fst snd]. destruct c.
  cbn [chain text prefixLen pairmap prefixStorage] in *. subst. reflexivity.
Qed.

Lemma X14_witness :
  ReadChainFromFile (file_of ["1"; "a b 1"])
  = Returned (mkChain ∅ 1 [] {[ "a"%string := {[ "b"%string := 1 ]} ]}
                      ["a"%string])
  /\ WriteModel (mkChain ∅ 1 [] {[ "a"%string := {[ "b"%string := 1 ]} ]}
                         ["a"%string])
     = Returned (mkChain ∅ 1 [] {[ "a"%string := {[ "b"%string := 1 ]} ]}
                         ["a"%string], Fprintln_all [Itoa 1]).
Proof.
  assert (H : ReadChainFromFile (file_of ["1"; "a b 1"])
  = Returned (mkChain ∅ 1 [] {[ "a"%string := {[ "b"%string := 1 ]} ]}
                      ["a"%string])) by (vm_compute; reflexivity).
  split; [exact H|].
  exact (proj2 (proj2 (proj2 (X14_loaded_model_writes_header_only _ _ H)))).
Defined.

(** *** More on Generate *)

Section GenerateWalk.

Variable range_order : gmap string Z -> list (string * Z).

Lemma index_Intn (l : list string) g x g' :
  Intn (Z.of_nat (length l)) g = Returned (x, g') ->
  exists s, index l x = Returned s /\ s ∈ l.
Proof. intros H. apply index_in_range. exact (Intn_range _ _ _ _ H). Qed.

(** The loop of [Generate] either panics in [rand.Intn] or returns the
    words it had followed by a walk of at most [left] words. *)
Lemma Generate_loop_shape left : forall c p words g,
  p <> [] ->
  Generate_loop range_order left c p words g = Panicked IntnInvalidArg
  \/ exists sfxs g',
       Generate_loop range_order left c p words g
       = Returned (words ++ sfxs, g')
       /\ (length sfxs <= left)%nat
       /\ pool_walk range_order c p sfxs.
Proof.
  induction left as [|left IH]; intros c p words g Hp; cbn [Generate_loop].
  - right. exists [], g. rewrite app_nil_r. cbn. split_and!; [done|lia|done].
  - destruct (size (default ∅ (pairmap c !! Prefix_String p)) =? 0)%nat.
    { right. exists [], g. rewrite app_nil_r. cbn. split_and!; [done|lia|done]. }
    destruct (Intn _ g) as [[x g1]|e] eqn:HI.
    2:{ left. unfold Intn in HI. destruct (_ <=? 0); [|discriminate].
        injection HI as <-. reflexivity. }
    cbn [bind fst snd]. destruct (index_Intn _ _ _ _ HI) as (s & Hs & Hin).
    rewrite Hs. cbn [bind]. rewrite (Shift_slide _ _ Hp). cbn [bind].
    destruct (IH c (slide p s) (words ++ [s]) g1 (slide_nonempty p s))
      as [Hpanic|(sfxs & g' & Hret & Hlen & Hwalk)].
    + now left.
    + right. exists (s :: sfxs), g'. rewrite Hret, <- app_assoc.
      cbn [app length pool_walk]. split_and!; [done|lia|done|done].
Qed.

(** What [Generate] can do: panic in [rand.Intn], panic in [make] on a
    negative order, or return the key it started from followed by a
    walk. *)
Lemma Generate_words_shape c n g :
  Generate_words range_order c n g = Panicked IntnInvalidArg
  \/ Generate_words range_order c n g = Panicked MakeNegativeLen
  \/ exists key sfxs,
       Generate_words range_order c n g = Returned (key :: sfxs)
       /\ key ∈ prefixStorage c
       /\ (length sfxs <= Z.to_nat (GoInt.sub n (prefixLen c)))%nat
       /\ pool_walk range_order c (Split key " ") sfxs.
Proof.
  unfold Generate_words.
  destruct (Intn _ g) as [[x g1]|e] eqn:HI.
  2:{ left. unfold Intn in HI. destruct (_ <=? 0); [|discriminate].
      injection HI as <-. reflexivity. }
  cbn [bind fst snd]. unfold make_Prefix.
  destruct (prefixLen c <? 0); [right; left; reflexivity|]. cbn [bind].
  destruct (index_Intn _ _ _ _ HI) as (key & Hk & Hin). rewrite Hk. cbn [bind].
  assert (Hp : Split key " " <> []).
  { destruct (Split_cons key " ") as (w & ws & E). rewrite E. discriminate. }
  destruct (Generate_loop_shape (Z.to_nat (GoInt.sub n (prefixLen c))) c
              (Split key " ") [Prefix_String (Split key " ")] g1 Hp)
    as [Hpanic|(sfxs & g' & Hret & Hlen & Hwalk)].
  - left. now rewrite Hpanic.
  - right. right. exists key, sfxs. rewrite Hret. cbn [bind fst app].
    unfold Prefix_String. rewrite Join_Split. done.
Qed.

Hypothesis range_sound : forall m w v,
  (w, v) ∈ range_order m -> m !! w = Some v.

Lemma pool_positive m s :
  s ∈ pool range_order m -> exists v, m !! s = Some v /\ 0 < v.
Proof.
  unfold pool. intros H.
  apply list_elem_of_In, in_flat_map in H as ([w v] & Hin & Hs).
  apply list_elem_of_In in Hin, Hs. cbn [fst snd] in Hs.
  apply elem_of_replicate in Hs as [-> Hn].
  exists v. split; [now apply range_sound|lia].
Qed.

Lemma pool_walk_valid c sfxs : forall p,
  pool_walk range_order c p sfxs -> valid_walk c p sfxs.
Proof.
  induction sfxs as [|s sfxs IH]; intros p; cbn [pool_walk valid_walk];
    [done|].
  intros [Hs Hw]. split; [|now apply IH].
  apply pool_positive in Hs as (v & Hv & Hpos). unfold count.
  destruct (pairmap c !! Prefix_String p) as [m|]; cbn [default from_option id] in *.
  - now rewrite Hv.
  - by rewrite lookup_empty in Hv.
Qed.

End GenerateWalk.



Lemma map_to_list_sound (m : gmap string Z) w v :
  (w, v) ∈ map_to_list m -> m !! w = Some v.
Proof. apply elem_of_map_to_list. Qed.

(** X16: when [range] visits only entries of the map, what [Generate]
    returns is one of the keys of [prefixStorage] followed by at most
    [n - c.prefixLen] words, each of which has a positive count in the
    table after the window that precedes it, the window starting as the
    words of the key and sliding by one word at a time. *)
Theorem X16_Generate_walks_the_table range_order c n g ws :
  (forall m w v, (w, v) ∈ range_order m -> m !! w = Some v) ->
  Generate_words range_order c n g = Returned ws ->
  exists key sfxs,
    ws = key :: sfxs
    /\ key ∈ prefixStorage c
    /\ (length sfxs <= Z.to_nat (GoInt.sub n (prefixLen c)))%nat
    /\ valid_walk c (Split key " ") sfxs
    /\ Generate range_order c n g = Returned (Join (key :: sfxs) " ").
Proof.
  intros Hsound H.
  destruct (Generate_words_shape range_order c n g)
    as [E|[E|(key & sfxs & E & Hin & Hlen & Hwalk)]];
    rewrite E in H; try discriminate.
  injection H as <-. exists key, sfxs. split_and!; try done.
  - now apply (pool_walk_valid range_order Hsound).
  - unfold Generate. now rewrite E.
Qed.

Lemma X16_witness :
  exists key sfxs,
    ["a"; "b"; "a"] = key :: sfxs
    /\ key ∈ prefixStorage ab_model
    /\ (length sfxs <= Z.to_nat (GoInt.sub 3 (prefixLen ab_model)))%nat
    /\ valid_walk ab_model (Split key " ") sfxs
    /\ Generate map_to_list ab_model 3 zero_draws
       = Returned (Join (key :: sfxs) " ").
Proof.
  apply (X16_Generate_walks_the_table map_to_list ab_model 3 zero_draws).
  - apply map_to_list_sound.
  - vm_compute. reflexivity.
Defined.

Section GenerateReturns.

Variable range_order : gmap string Z -> list (string * Z).

Hypothesis range_complete : forall m w v,
  m !! w = Some v -> (w, v) ∈ range_order m.



End GenerateReturns.







(** *** From input files to generated text *)







Lemma slide_drop p s ws :
  p <> [] ->
  drop (length ws) (slide p s ++ ws) = drop (S (length ws)) (p ++ s :: ws).
Proof.
  destruct p as [|x p]; [done|]. intros _. unfold slide.
  cbn [tail app drop]. now rewrite <- app_assoc.
Qed.

(** The loop of [Generate] returns before its bound only at a window
    without an entry, or with an empty one. *)
Lemma Generate_loop_stops range_order left : forall c p words g ws g',
  p <> [] ->
  Generate_loop range_order left c p words g = Returned (ws, g') ->
  exists sfxs,
    ws = words ++ sfxs
    /\ (length sfxs = left
        \/ ((length sfxs < left)%nat
            /\ entry c (Prefix_String (drop (length sfxs) (p ++ sfxs))) = ∅)).
Proof.
  induction left as [|left IH]; intros c p words g ws g' Hp H;
    cbn [Generate_loop] in H.
  - injection H as <- _. exists []. rewrite app_nil_r. split; [done|now left].
  - destruct (Nat.eqb_spec
                (size (default ∅ (pairmap c !! Prefix_String p))) 0) as [E|_].
    { injection H as <- _. exists []. rewrite !app_nil_r. cbn [length drop].
      split; [done|]. right. split; [lia|].
      now apply map_size_empty_inv in E. }
    destruct (Intn _ g) as [x|]; [|discriminate]. cbn [bind] in H.
    destruct (index _ _) as [s|]; [|discriminate]. cbn [bind] in H.
    rewrite (Shift_slide _ _ Hp) in H. cbn [bind] in H.
    apply IH in H as (sfxs & -> & Hend); [|apply slide_nonempty].
    exists (s :: sfxs). rewrite <- app_assoc. split; [done|].
    cbn [length]. rewrite <- (slide_drop p s sfxs Hp).
    destruct Hend as [Hl|[Hl He]]; [left; lia|right; split; [lia|done]].
Qed.

(** X21: [Generate] stops before [n - c.prefixLen] words are added only at
    a dead end: when fewer words follow the starting key, the window
    reached, the last words of the key's words followed by the words
    added, has no entry in the table or an empty one. *)
Theorem X21_stops_early_only_at_dead_end range_order c n g ws :
  Generate_words range_order c n g = Returned ws ->
  exists key sfxs,
    ws = key :: sfxs
    /\ key ∈ prefixStorage c
    /\ (length sfxs = Z.to_nat (GoInt.sub n (prefixLen c))
        \/ ((length sfxs < Z.to_nat (GoInt.sub n (prefixLen c)))%nat
            /\ entry c (Prefix_String
                          (drop (length sfxs) (Split key " " ++ sfxs))) = ∅)).
Proof.
  unfold Generate_words. intros H.
  destruct (Intn _ g) as [[x g1]|] eqn:HI; [|discriminate]. cbn [bind fst snd] in H.
  destruct (make_Prefix _); [|discriminate]. cbn [bind] in H.
  destruct (index_Intn _ _ _ _ HI) as (key & Hk & Hin). rewrite Hk in H.
  cbn [bind] in H.
  destruct (Generate_loop _ _ _ _ _ _) as [[ws' g']|] eqn:HL; [|discriminate].
  cbn [bind fst] in H. injection H as <-.
  assert (Hp : Split key " " <> []).
  { destruct (Split_cons key " ") as (w & l & E). rewrite E. discriminate. }
  apply (Generate_loop_stops _ _ _ _ _ _ _ _ Hp) in HL as (sfxs & -> & Hend).
  exists key, sfxs. unfold Prefix_String at 1. rewrite Join_Split.
  split_and!; done.
Qed.

Lemma X21_witness :
  exists key sfxs,
    ["a"; "b"] = key :: sfxs
    /\ key ∈ prefixStorage dead_end_model
    /\ (length sfxs = Z.to_nat (GoInt.sub 5 (prefixLen dead_end_model))
        \/ ((length sfxs
             < Z.to_nat (GoInt.sub 5 (prefixLen dead_end_model)))%nat
            /\ entry dead_end_model
                 (Prefix_String (drop (length sfxs) (Split key " " ++ sfxs)))
               = ∅)).
Proof.
  apply (X21_stops_early_only_at_dead_end map_to_list dead_end_model 5
           zero_draws).
  vm_compute. reflexivity.
Defined.

(** *** The runs of the program *)


Lemma command_not_flag cmd prog rest :
  cmd ∈ ["read"; "READ"; "generate"; "GENERATE"] ->
  flag_Parse_exits (prog :: cmd :: rest) = false.
Proof.
  intros H. repeat (apply elem_of_cons in H as [->|H]; [reflexivity|]).
  by apply elem_of_nil in H.
Qed.

(** X22: with one of the four command words and fewer than two arguments
    after it, [main] stops with an index out of range, whatever the
    arguments are: READ fetches the name of the output file before it
    looks at the error of the order, so a bad order is not reported
    either. *)
Theorem X22_too_few_arguments open_file can_create range_order prog cmd rest g :
  cmd ∈ ["read"; "READ"; "generate"; "GENERATE"] ->
  (length rest < 2)%nat ->
  main open_file can_create range_order (prog :: cmd :: rest) g
  = Panics IndexOutOfRange.
Proof.
  intros Hcmd Hlen. unfold main. rewrite (command_not_flag _ _ _ Hcmd).
  unfold main_body.
  pose proof (index_lookup (prog :: cmd :: rest) 1 cmd eq_refl) as Hi.
  change (Z.of_nat 1) with 1 in Hi. rewrite Hi. cbn [bind].
  destruct rest as [|a [|b rest]]; [| |cbn in Hlen; lia];
    repeat (apply elem_of_cons in Hcmd as [->|Hcmd]; [reflexivity|]);
    by apply elem_of_nil in Hcmd.
Qed.

Lemma X22_witness :
  main (fun _ => None) (fun _ => true) map_to_list
       ["mark"; "read"; "two"] zero_draws
  = Panics IndexOutOfRange.
Proof.
  apply (X22_too_few_arguments (fun _ => None) (fun _ => true) map_to_list
           "mark" "read" ["two"] zero_draws).
  - decide_by_run.
  - cbn. lia.
Defined.

(** X23: a first argument that is none of the four command words makes
    [main] do nothing: it leaves through [flag.Parse] when the argument
    is taken for a flag, and otherwise returns without printing and
    without creating a file, whatever the other arguments are. *)
Theorem X23_other_command open_file can_create range_order prog cmd rest g :
  cmd ∉ ["read"; "READ"; "generate"; "GENERATE"] ->
  main open_file can_create range_order (prog :: cmd :: rest) g
  = if flag_Parse_exits (prog :: cmd :: rest) then Exits
    else Ends (mkEffects EmptyString None).
Proof.
  intros Hcmd. unfold main.
  destruct (flag_Parse_exits (prog :: cmd :: rest)); [reflexivity|].
  unfold main_body.
  pose proof (index_lookup (prog :: cmd :: rest) 1 cmd eq_refl) as Hi.
  change (Z.of_nat 1) with 1 in Hi. rewrite Hi. cbn [bind].
  assert (Hr : String.eqb cmd "read" || String.eqb cmd "READ" = false).
  { apply orb_false_intro; apply String.eqb_neq; intros ->; apply Hcmd;
      repeat constructor. }
  assert (Hg : String.eqb cmd "generate" || String.eqb cmd "GENERATE" = false).
  { apply orb_false_intro; apply String.eqb_neq; intros ->; apply Hcmd;
      repeat constructor. }
  rewrite Hr, Hg. reflexivity.
Qed.

Lemma X23_witness :
  main (fun _ => None) (fun _ => true) map_to_list
       ["mark"; "Read"; "2"; "out"; "in"] zero_draws
  = Ends (mkEffects EmptyString None).
Proof.
  apply (X23_other_command (fun _ => None) (fun _ => true) map_to_list
           "mark" "Read" ["2"; "out"; "in"] zero_draws).
  decide_by_run.
Defined.

Lemma append_empty_r (s : string) : s +:+ EmptyString = s.
Proof.
  induction s as [|a s IH]; [reflexivity|].
  change (String a (s +:+ EmptyString) = String a s). now rewrite IH.
Qed.





(** *** No diagnostic for a written model *)







(** X26: a number that [Atoi] rejects is reported by a panic before any
    file is opened or created. With at least two arguments after the
    command word, READ panics with [trouble parsing int] when the order
    is rejected, and GENERATE panics with [trouble parsing integer
    numWords from command line] when the number of words is rejected,
    whether the files exist or not. *)
Theorem X26_bad_number_panics open_file can_create range_order
    prog cmd a b rest g :
  (cmd ∈ ["read"; "READ"] -> snd (Atoi a) <> None ->
   main open_file can_create range_order (prog :: cmd :: a :: b :: rest) g
   = Panics (ExplicitPanic "trouble parsing int"))
  /\ (cmd ∈ ["generate"; "GENERATE"] -> snd (Atoi b) <> None ->
      main open_file can_create range_order (prog :: cmd :: a :: b :: rest) g
      = Panics (ExplicitPanic
                  "trouble parsing integer numWords from command line")).
Proof.
  pose proof (index_lookup (prog :: cmd :: a :: b :: rest) 1 cmd eq_refl) as H1.
  pose proof (index_lookup (prog :: cmd :: a :: b :: rest) 2 a eq_refl) as H2.
  pose proof (index_lookup (prog :: cmd :: a :: b :: rest) 3 b eq_refl) as H3.
  change (Z.of_nat 1) with 1 in H1. change (Z.of_nat 2) with 2 in H2.
  change (Z.of_nat 3) with 3 in H3.
  split; intros Hcmd Hbad; unfold main;
    (rewrite command_not_flag
       by (repeat (apply elem_of_cons in Hcmd as [->|Hcmd];
                   [repeat constructor|]); by apply elem_of_nil in Hcmd));
    unfold main_body, main_read, main_generate; rewrite H1, H2, H3;
    repeat (apply elem_of_cons in Hcmd as [->|Hcmd];
            [cbn [String.eqb Ascii.eqb Bool.eqb orb bind];
             destruct (snd (Atoi _)); [reflexivity|done]|]);
    by apply elem_of_nil in Hcmd.
Qed.

Lemma X26_witness :
  main (fun _ => None) (fun _ => false) map_to_list
       ["mark"; "read"; "2x"; "out"] zero_draws
  = Panics (ExplicitPanic "trouble parsing int")
  /\ main (fun _ => None) (fun _ => false) map_to_list
          ["mark"; "generate"; "model"; "many"] zero_draws
     = Panics (ExplicitPanic
                 "trouble parsing integer numWords from command line").
Proof.
  split.
  - apply (X26_bad_number_panics (fun _ => None) (fun _ => false) map_to_list
             "mark" "read" "2x" "out" [] zero_draws).
    + decide_by_run.
    + vm_compute. discriminate.
  - apply (X26_bad_number_panics (fun _ => None) (fun _ => false) map_to_list
             "mark" "generate" "model" "many" [] zero_draws).
    + decide_by_run.
    + vm_compute. discriminate.
Defined.

(** X27: the READ run with an order below 1. When the order that [Atoi]
    accepts is negative and the first input file opens, [main] panics in
    [make]; when it is 0 and the first input file opens and has a word,
    [main] panics in [Shift]; and with no input file at all [main]
    returns for every order, negative ones too, having printed nothing
    and created a file that holds the header line alone. *)
Theorem X27_read_run_low_order open_file can_create range_order
    prog cmd ks out name names content k g :
  cmd ∈ ["read"; "READ"] ->
  Atoi ks = (k, None) ->
  (k < 0 -> open_file name = Some content ->
   main open_file can_create range_order
        (prog :: cmd :: ks :: out :: name :: names) g
   = Panics MakeNegativeLen)
  /\ (k = 0 -> open_file name = Some content -> Fscan_words content <> [] ->
      main open_file can_create range_order
           (prog :: cmd :: ks :: out :: name :: names) g
      = Panics SliceBounds)
  /\ (can_create out = true ->
      main open_file can_create range_order [prog; cmd; ks; out] g
      = Ends (mkEffects EmptyString (Some (out, Fprintln_all [Itoa k])))).
Proof.
  intros Hcmd Hk.
  assert (Hflag : forall rest, flag_Parse_exits (prog :: cmd :: rest) = false).
  { intros rest. apply command_not_flag.
    apply elem_of_cons in Hcmd as [->|Hcmd];
      [|apply elem_of_cons in Hcmd as [->|Hcmd];
        [|by apply elem_of_nil in Hcmd]]; repeat constructor. }
  assert (Hread : String.eqb cmd "read" || String.eqb cmd "READ" = true).
  { apply elem_of_cons in Hcmd as [->|Hcmd];
      [|apply elem_of_cons in Hcmd as [->|Hcmd];
        [|by apply elem_of_nil in Hcmd]]; reflexivity. }
  assert (Hhead : forall l,
            main_read open_file can_create (prog :: cmd :: ks :: out :: l)
            = (x <- read_files open_file (NewChain k) l EmptyString ;;
               if can_create out then
                 w <- WriteModel (fst x) ;;
                 Returned (mkEffects (snd x) (Some (out, snd w)))
               else Panicked (ExplicitPanic "problem creating output file"))).
  { intros l. unfold main_read.
    pose proof (index_lookup (prog :: cmd :: ks :: out :: l) 2 ks eq_refl) as H2.
    pose proof (index_lookup (prog :: cmd :: ks :: out :: l) 3 out eq_refl) as H3.
    change (Z.of_nat 2) with 2 in H2. change (Z.of_nat 3) with 3 in H3.
    rewrite H2, H3. cbn [bind]. rewrite Hk. cbn [fst snd].
    unfold slice_from. cbn [length].
    replace (Z.of_nat (S (S (S (S (length l))))) <? 4) with false
      by (symmetry; apply Z.ltb_ge; lia).
    reflexivity. }
  assert (Hmain : forall l,
            main open_file can_create range_order
                 (prog :: cmd :: ks :: out :: l) g
            = match main_read open_file can_create
                      (prog :: cmd :: ks :: out :: l) with
              | Returned e => Ends e
              | Panicked p => Panics p
              end).
  { intros l. unfold main. rewrite Hflag. unfold main_body.
    pose proof (index_lookup (prog :: cmd :: ks :: out :: l) 1 cmd eq_refl) as H1.
    change (Z.of_nat 1) with 1 in H1. rewrite H1. cbn [bind]. rewrite Hread.
    destruct (main_read _ _ _) as [e|p]; [|reflexivity]. cbn [bind].
    assert (Hgen : String.eqb cmd "generate" || String.eqb cmd "GENERATE" = false).
    { apply elem_of_cons in Hcmd as [->|Hcmd];
        [|apply elem_of_cons in Hcmd as [->|Hcmd];
          [|by apply elem_of_nil in Hcmd]]; reflexivity. }
    rewrite Hgen. cbn [bind]. rewrite append_empty_r. now destruct e. }
  split_and!.
  - intros Hneg Hopen. rewrite Hmain, Hhead. cbn [read_files]. rewrite Hopen.
    unfold Build, make_Prefix. cbn [NewChain prefixLen].
    now replace (k <? 0) with true by (symmetry; now apply Z.ltb_lt).
  - intros -> Hopen Hw. rewrite Hmain, Hhead. cbn [read_files]. rewrite Hopen.
    unfold Build, make_Prefix. cbn [NewChain prefixLen].
    change (0 <? 0) with false. cbn [Z.to_nat replicate bind].
    destruct (Fscan_words content); [done|reflexivity].
  - intros Hcreate. rewrite Hmain, Hhead. cbn [read_files bind fst snd].
    rewrite Hcreate. reflexivity.
Qed.

Lemma X27_witness :
  (-1 < 0 -> in_file "in" "a b" "in" = Some "a b"%string ->
   main (in_file "in" "a b") (fun _ => true) map_to_list
        ["mark"; "read"; "-1"; "out"; "in"] zero_draws
   = Panics MakeNegativeLen)
  /\ (-1 = 0 -> in_file "in" "a b" "in" = Some "a b"%string ->
      Fscan_words "a b" <> [] ->
      main (in_file "in" "a b") (fun _ => true) map_to_list
           ["mark"; "read"; "-1"; "out"; "in"] zero_draws
      = Panics SliceBounds)
  /\ ((fun _ : string => true) "out"%string = true ->
      main (in_file "in" "a b") (fun _ => true) map_to_list
           ["mark"; "read"; "-1"; "out"] zero_draws
      = Ends (mkEffects EmptyString
                (Some ("out"%string, Fprintln_all [Itoa (-1)])))).
Proof.
  apply (X27_read_run_low_order (in_file "in" "a b") (fun _ => true)
           map_to_list "mark" "read" "-1" "out" "in" [] "a b" (-1) zero_draws).
  - decide_by_run.
  - vm_compute. reflexivity.
Defined.

End MarkFacts.
